(** * mockery-api: the request-dispatch engine

    A shallow embedding of [handler.go], [config.go] and [main.go]:
    the route table, [pathMatches], [findRoute], [ServeHTTP], the health
    check handler and the mux that [main] wires them into; configuration
    validation and loading; the earlier handler, which matches paths by
    equality; and [convertPathToExample] of the documentation generator.

    Conventions of the embedding.
    - A Go [string] is a byte sequence: Rocq's [string] (a list of [ascii]).
    - A Go [int] is a [Z].
    - A Go [map[string]V] is a [gmap string V]; a nil map is [None].
    - [http.ResponseWriter] is an interface; a handler is modelled by what it
      records on the writer: the header map, the status code of the
      response header, the bytes passed to [Write], the informational codes
      sent ahead, and the code of a [WriteHeader] call that panicked.  What
      a transport does with them afterwards is outside the model.
    - [net/http] is modelled as the server of Go 1.22 and later behaves:
      [WriteHeader] panics on a code outside 100..999 and sends a code 1xx
      as an informational response, and [ServeMux] redirects a request
      whose path is not in canonical form.
    - [log.Printf] calls are omitted: they write to the process's standard
      logger and never feed back into a handler. *)

From Stdlib Require Import Ascii String List Bool ZArith Lia Permutation.
From Stdlib Require Import DecimalString.
From stdpp Require Import gmap strings.

Local Open Scope Z_scope.
Set Warnings "-register-all".

(** ** The Go standard library functions the handler calls *)

(** A double quote and a line feed, for the byte strings that contain them. *)
Definition dquote : ascii := "034"%char.
Definition LF : string := String "010"%char "".

(** [quoted s] is [s] between double quotes. *)
Definition quoted (s : string) : string :=
  String dquote s +:+ String dquote "".

Module strings.

(** [strings.HasPrefix(s, prefix)]. *)
Definition HasPrefix (s prefix : string) : bool := String.prefix prefix s.

(** [strings.HasSuffix(s, suffix)]:
    [len(s) >= len(suffix) && s[len(s)-len(suffix):] == suffix]. *)
Definition HasSuffix (s suffix : string) : bool :=
  (String.length suffix <=? String.length s)%nat
  && String.eqb
       (String.substring (String.length s - String.length suffix)
          (String.length suffix) s)
       suffix.

(** [strings.Contains(s, substr)]: [substr] occurs somewhere in [s]. *)
Fixpoint Contains (s substr : string) : bool :=
  String.prefix substr s
  || match s with
     | EmptyString => false
     | String _ s' => Contains s' substr
     end.

(** Membership of a byte in a cutset of ASCII bytes. *)
Fixpoint inCutset (c : ascii) (cutset : string) : bool :=
  match cutset with
  | EmptyString => false
  | String d cutset' => Ascii.eqb c d || inCutset c cutset'
  end.

(** [strings.TrimLeft] and [strings.TrimRight] for a cutset of ASCII bytes:
    every leading (trailing) byte of the cutset is removed. *)
Fixpoint TrimLeft (s cutset : string) : string :=
  match s with
  | EmptyString => EmptyString
  | String c s' => if inCutset c cutset then TrimLeft s' cutset else s
  end.

Fixpoint TrimRight (s cutset : string) : string :=
  match s with
  | EmptyString => EmptyString
  | String c s' =>
      match TrimRight s' cutset with
      | EmptyString => if inCutset c cutset then EmptyString else String c EmptyString
      | t => String c t
      end
  end.

(** [strings.Trim(s, cutset)]: the right end is trimmed first, then the
    left end, as the library does. *)
Definition Trim (s cutset : string) : string :=
  TrimLeft (TrimRight s cutset) cutset.

(** [strings.Split(s, sep)] for a non-empty [sep]: [s] cut at every
    occurrence of [sep], scanning left to right; [cur] is the piece being
    read and [skip] counts the bytes of a separator still to be passed.
    [Split "" sep] is the one-element list [[""]]. *)
Fixpoint splitFrom (sep : string) (skip : nat) (cur s : string) : list string :=
  match s with
  | EmptyString => [cur]
  | String c s' =>
      match skip with
      | S k => splitFrom sep k cur s'
      | O =>
          if String.prefix sep s
          then cur :: splitFrom sep (String.length sep - 1) "" s'
          else splitFrom sep 0 (cur +:+ String c "") s'
      end
  end.

Definition Split (s sep : string) : list string := splitFrom sep 0 "" s.

(** [strings.Index(s, substr)]: the byte index of the first occurrence of
    [substr] in [s], or -1. *)
Fixpoint Index (s substr : string) : Z :=
  if String.prefix substr s then 0
  else
    match s with
    | EmptyString => -1
    | String _ s' =>
        let i := Index s' substr in
        if i <? 0 then -1 else i + 1
    end.

(** [strings.ReplaceAll(s, old, new)] for a non-empty [old]: the
    occurrences of [old] that do not overlap, left to right, are replaced;
    [skip] counts the bytes of an occurrence still to be passed. *)
Fixpoint replaceFrom (old new : string) (skip : nat) (s : string) : string :=
  match s with
  | EmptyString => EmptyString
  | String c s' =>
      match skip with
      | S k => replaceFrom old new k s'
      | O =>
          if String.prefix old s
          then new +:+ replaceFrom old new (String.length old - 1) s'
          else String c (replaceFrom old new 0 s')
      end
  end.

Definition ReplaceAll (s old new : string) : string := replaceFrom old new 0 s.

End strings.

(** ** config.go: the data model *)

(** The dynamic type of a decoded JSON value ([interface{}] after
    [json.Unmarshal]): nil, bool, float64 (its 64-bit pattern), string,
    [[]interface{}] or [map[string]interface{}]. *)
Inductive any : Type :=
| Nil
| Bool (b : bool)
| Float64 (bits : Z)
| Str (s : string)
| Slice (xs : list any)
| Map (kvs : list (string * any)).

Definition isNil (v : any) : bool :=
  match v with Nil => true | _ => false end.

(** [Response]: the mock response configuration. *)
Record Response := mkResponse {
  Status : Z;
  Headers : option (gmap string string);
  Body : any
}.

(** [Route]: a single API endpoint configuration. *)
Record Route := mkRoute {
  Path : string;
  Method : string;
  RequiresAuth : bool;
  AuthHeader : string;
  Response_ : Response
}.

(** ** handler.go: path matching *)

(** The body of the segment loop of [pathMatches]; the two slices have the
    same length when it runs. *)
Fixpoint segmentsMatch (patternParts pathParts : list string) : bool :=
  match patternParts, pathParts with
  | patternPart :: patternRest, pathPart :: pathRest =>
      if strings.HasPrefix patternPart "{" && strings.HasSuffix patternPart "}"
      then segmentsMatch patternRest pathRest
      else if negb (String.eqb patternPart pathPart) then false
      else segmentsMatch patternRest pathRest
  | _, _ => true
  end.

Definition pathMatches (pattern path : string) : bool :=
  if String.eqb pattern path then true
  else if negb (strings.Contains pattern "{") then false
  else
    let patternParts := strings.Split (strings.Trim pattern "/") "/" in
    let pathParts := strings.Split (strings.Trim path "/") "/" in
    if negb (length patternParts =? length pathParts)%nat then false
    else segmentsMatch patternParts pathParts.

(** ** net/textproto and net/http, as far as the handler uses them *)

Module textproto.

Definition byteIn (lo hi c : ascii) : bool :=
  (nat_of_ascii lo <=? nat_of_ascii c)%nat
  && (nat_of_ascii c <=? nat_of_ascii hi)%nat.

Definition isLower (c : ascii) : bool := byteIn "a" "z" c.
Definition isUpper (c : ascii) : bool := byteIn "A" "Z" c.

(** [validHeaderFieldByte]: the token bytes of RFC 7230. *)
Definition validHeaderFieldByte (c : ascii) : bool :=
  isLower c || isUpper c || byteIn "0" "9" c
  || strings.inCutset c "!#$%&'*+-.^_`|~".

(** The rewriting pass of [canonicalMIMEHeaderKey]: upper case for the
    first letter and for a letter after a dash, lower case elsewhere. *)
Fixpoint canonicalize (upper : bool) (a : string) : string :=
  match a with
  | EmptyString => EmptyString
  | String c a' =>
      let c' :=
        if upper && isLower c then ascii_of_nat (nat_of_ascii c - 32)
        else if negb upper && isUpper c then ascii_of_nat (nat_of_ascii c + 32)
        else c in
      String c' (canonicalize (Ascii.eqb c' "-") a')
  end.

(** [textproto.CanonicalMIMEHeaderKey(s)]: a key holding a byte that is
    not a token byte (a space included) is returned unchanged. *)
Definition CanonicalMIMEHeaderKey (s : string) : string :=
  if forallb validHeaderFieldByte (list_ascii_of_string s)
  then canonicalize true s
  else s.

End textproto.

Module path.

(** The elements [path.Clean] keeps of a rooted path, read left to right:
    an empty element (between two slashes) and [.] are dropped, and [..]
    drops the element kept last, or nothing at the root.  [stack] holds the
    elements kept so far, the last one first. *)
Fixpoint cleanElems (stack elems : list string) : list string :=
  match elems with
  | [] => rev stack
  | e :: rest =>
      if String.eqb e "" || String.eqb e "." then cleanElems stack rest
      else if String.eqb e ".." then cleanElems (tail stack) rest
      else cleanElems (e :: stack) rest
  end.

(** [path.Clean(p)] for a path [p] that starts with a slash: the kept
    elements, each after one slash, and [/] when none is kept. *)
Definition Clean (p : string) : string :=
  match cleanElems [] (strings.Split p "/") with
  | [] => "/"
  | elems => "/" +:+ String.concat "/" elems
  end.

End path.

Module http.

Definition StatusOK : Z := 200.
Definition StatusMovedPermanently : Z := 301.
Definition StatusUnauthorized : Z := 401.
Definition StatusNotFound : Z := 404.

(** [http.Header] is [map[string][]string]. *)
Definition Get (h : gmap string (list string)) (key : string) : string :=
  match h !! textproto.CanonicalMIMEHeaderKey key with
  | Some (v :: _) => v
  | _ => ""
  end.

Definition Set_ (h : gmap string (list string)) (key value : string)
  : gmap string (list string) :=
  <[textproto.CanonicalMIMEHeaderKey key := [value]]> h.

Definition Del (h : gmap string (list string)) (key : string)
  : gmap string (list string) :=
  delete (textproto.CanonicalMIMEHeaderKey key) h.

(** The part of [*http.Request] the handlers and the mux read: [r.Method],
    [r.URL.Path], [r.URL.RawQuery] and [r.Header].  A request whose target
    is [*], and a target that percent-encodes a slash or a dot (for which
    [r.URL.EscapedPath()] and [r.URL.Path] clean differently), are not
    covered. *)
Record Request := mkRequest {
  ReqMethod : string;
  URLPath : string;
  RawQuery : string;
  ReqHeader : gmap string (list string)
}.

(** What a handler has done to its [http.ResponseWriter] when it stops:
    - [wHeader]: the header map;
    - [wCode]: the status code of the response header, set by the first
      [WriteHeader] with a final code, or by the first [Write]; [None] when
      the handler made neither (the server then sends 200);
    - [wBody]: the bytes passed to [Write], in order;
    - [wEarly]: the informational codes (100 to 199, 101 apart) passed to
      [WriteHeader] before the response header, each sent at once;
    - [wPanic]: the code of a [WriteHeader] call that panicked with
      [invalid WriteHeader code].  The panic unwinds the handler, so nothing
      is recorded after it; the server recovers it and closes the
      connection, and no response is sent.
    Whether the server sends the bytes of [wBody] (not for a HEAD request,
    nor with a status 1xx, 204 or 304) is a matter of the transport and is
    not recorded. *)
Record ResponseWriter := mkWriter {
  wHeader : gmap string (list string);
  wCode : option Z;
  wBody : string;
  wEarly : list Z;
  wPanic : option Z
}.

Definition newWriter : ResponseWriter :=
  {| wHeader := ∅; wCode := None; wBody := ""; wEarly := []; wPanic := None |}.

(** The handler is still running: no call has panicked. *)
Definition running (w : ResponseWriter) : bool :=
  match wPanic w with None => true | Some _ => false end.

(** [w.Header().Set(key, value)] and [w.Header().Del(key)]. *)
Definition HeaderSet (w : ResponseWriter) (key value : string) : ResponseWriter :=
  if running w
  then {| wHeader := Set_ (wHeader w) key value; wCode := wCode w;
          wBody := wBody w; wEarly := wEarly w; wPanic := wPanic w |}
  else w.

Definition HeaderDel (w : ResponseWriter) (key : string) : ResponseWriter :=
  if running w
  then {| wHeader := Del (wHeader w) key; wCode := wCode w;
          wBody := wBody w; wEarly := wEarly w; wPanic := wPanic w |}
  else w.

(** [checkWriteHeaderCode]: a code below 100 or above 999 panics. *)
Definition validCode (code : Z) : bool := (100 <=? code) && (code <=? 999).

(** The codes [WriteHeader] sends as an informational response, after
    which the response header is still to come. *)
Definition informational (code : Z) : bool :=
  (100 <=? code) && (code <=? 199) && negb (code =? 101).

(** [w.WriteHeader(statusCode)]: a call after the response header is
    ignored (before the code is looked at); an invalid code panics; an
    informational code is sent and leaves the header open; any other code
    becomes the status of the response. *)
Definition WriteHeader (w : ResponseWriter) (statusCode : Z) : ResponseWriter :=
  if running w then
    match wCode w with
    | Some _ => w
    | None =>
        if negb (validCode statusCode)
        then {| wHeader := wHeader w; wCode := None; wBody := wBody w;
                wEarly := wEarly w; wPanic := Some statusCode |}
        else if informational statusCode
        then {| wHeader := wHeader w; wCode := None; wBody := wBody w;
                wEarly := wEarly w ++ [statusCode]; wPanic := None |}
        else {| wHeader := wHeader w; wCode := Some statusCode; wBody := wBody w;
                wEarly := wEarly w; wPanic := None |}
    end
  else w.

(** [w.Write(b)]: an implicit [WriteHeader(200)] when no response header
    was written. *)
Definition Write_ (w : ResponseWriter) (b : string) : ResponseWriter :=
  if running w then
    let w' := WriteHeader w StatusOK in
    {| wHeader := wHeader w'; wCode := wCode w'; wBody := wBody w' +:+ b;
       wEarly := wEarly w'; wPanic := wPanic w' |}
  else w.

(** [http.Error(w, error, code)]. *)
Definition Error (w : ResponseWriter) (error : string) (code : Z) : ResponseWriter :=
  let w := HeaderDel w "Content-Length" in
  let w := HeaderSet w "Content-Type" "text/plain; charset=utf-8" in
  let w := HeaderSet w "X-Content-Type-Options" "nosniff" in
  let w := WriteHeader w code in
  Write_ w (error +:+ LF).

(** [http.NotFound(w, r)]. *)
Definition NotFound (w : ResponseWriter) (r : Request) : ResponseWriter :=
  Error w "404 page not found" StatusNotFound.

(** [hexEscapeNonASCII]: a byte from 128 on is written as a percent sign
    and its two hexadecimal digits, in lower case. *)
Definition hexDigit (n : nat) : ascii :=
  nth n (list_ascii_of_string "0123456789abcdef") "0"%char.

Fixpoint hexEscapeNonASCII (s : string) : string :=
  match s with
  | EmptyString => EmptyString
  | String c s' =>
      let n := nat_of_ascii c in
      if (128 <=? n)%nat
      then String "%" (String (hexDigit (n / 16)) (String (hexDigit (n mod 16))
             (hexEscapeNonASCII s')))
      else String c (hexEscapeNonASCII s')
  end.

(** [htmlEscape]: the replacer for the five bytes HTML reserves. *)
Fixpoint htmlEscape (s : string) : string :=
  match s with
  | EmptyString => EmptyString
  | String c s' =>
      (if Ascii.eqb c "&" then "&amp;"
       else if Ascii.eqb c "<" then "&lt;"
       else if Ascii.eqb c ">" then "&gt;"
       else if Ascii.eqb c dquote then "&#34;"
       else if Ascii.eqb c "'" then "&#39;"
       else String c "")
      +:+ htmlEscape s'
  end.

(** [(&url.URL{Path: path, RawQuery: query}).String()] for a path that
    starts with a slash and holds no byte the URL encoding changes; with
    such a byte the library writes its percent-encoding in place of it. *)
Definition URLString (path query : string) : string :=
  if String.eqb query "" then path else path +:+ "?" +:+ query.

(** [http.Redirect(w, r, url, StatusMovedPermanently)] for a [url] of the
    mux, which parses with neither scheme nor host and starts with a
    slash: the part before the first question mark is cleaned, keeping a
    slash at its end, and the response is the Location header, an HTML
    content type for GET and HEAD, the status, and for GET a short HTML
    body written with [fmt.Fprintln]; content type and body are left out
    when the writer already holds a Content-Type. *)
Definition Redirect (w : ResponseWriter) (r : Request) (url : string)
  : ResponseWriter :=
  let i := strings.Index url "?" in
  let query := if i <? 0 then "" else
                 String.substring (Z.to_nat i) (String.length url - Z.to_nat i) url in
  let url := if i <? 0 then url else String.substring 0 (Z.to_nat i) url in
  let trailing := strings.HasSuffix url "/" in
  let url := path.Clean url in
  let url := if trailing && negb (strings.HasSuffix url "/")
             then url +:+ "/" else url in
  let url := url +:+ query in
  let hadCT := bool_decide (is_Some (wHeader w !! "Content-Type")) in
  let w := HeaderSet w "Location" (hexEscapeNonASCII url) in
  let w :=
    if negb hadCT
       && (String.eqb (ReqMethod r) "GET" || String.eqb (ReqMethod r) "HEAD")
    then HeaderSet w "Content-Type" "text/html; charset=utf-8"
    else w in
  let w := WriteHeader w StatusMovedPermanently in
  if negb hadCT && String.eqb (ReqMethod r) "GET"
  then Write_ w ("<a href=" +:+ quoted (htmlEscape url)
                 +:+ ">Moved Permanently</a>." +:+ LF +:+ LF)
  else w.

Definition Handler : Type := ResponseWriter → Request → ResponseWriter.

(** [http.ServeMux] for patterns without host, method or wildcard: a
    pattern that ends in a slash matches every path it is a prefix of, any
    other pattern matches that path alone, and the longest matching pattern
    wins. *)
Record muxEntry := mkEntry { pattern : string; handler : Handler }.

Definition Handle (mux : list muxEntry) (pat : string) (h : Handler)
  : list muxEntry :=
  mux ++ [mkEntry pat h].

Definition patternMatches (pat path : string) : bool :=
  if strings.HasSuffix pat "/" then strings.HasPrefix path pat
  else String.eqb pat path.

Definition better (best : option muxEntry) (e : muxEntry) : option muxEntry :=
  match best with
  | None => Some e
  | Some b =>
      if (String.length (pattern b) <? String.length (pattern e))%nat
      then Some e else best
  end.

Definition muxMatch (mux : list muxEntry) (path : string) : option muxEntry :=
  fold_left (fun best e => if patternMatches (pattern e) path then better best e else best)
    mux None.

(** [cleanPath]: the canonical form of a request path.  The path is made
    to start with a slash and cleaned with [path.Clean], and a slash at its
    end is put back. *)
Definition cleanPath (p : string) : string :=
  if String.eqb p "" then "/"
  else
    let p := if strings.HasPrefix p "/" then p else "/" +:+ p in
    let np := path.Clean p in
    if strings.HasSuffix p "/" && negb (String.eqb np "/")
    then
      if (String.length p =? String.length np + 1)%nat && strings.HasPrefix p np
      then p else np +:+ "/"
    else np.

(** A path is matched exactly when it is itself a registered pattern. *)
Definition exactMatch (mux : list muxEntry) (path : string) : bool :=
  existsb (fun e => String.eqb (pattern e) path) mux.

(** The redirect of [/tree] to [/tree/]: the path is not matched exactly,
    does not end in a slash, and with a slash added it is. *)
Definition slashRedirect (mux : list muxEntry) (path : string) : bool :=
  negb (exactMatch mux path)
  && negb (strings.HasSuffix path "/")
  && exactMatch mux (path +:+ "/").

(** [mux.ServeHTTP(w, r)].  The path of a CONNECT request is taken as it
    is, any other path is cleaned first.  The mux answers by itself, with
    a redirect (301), a path that lacks the slash of a registered subtree
    and a path that is not in canonical form (a doubled slash, a dot
    segment, no slash at the start); otherwise the handler of the longest
    matching pattern runs, or [http.NotFound] when none matches. *)
Definition ServeMux_ServeHTTP (mux : list muxEntry) : Handler :=
  fun w r =>
    let path :=
      if String.eqb (ReqMethod r) "CONNECT" then URLPath r
      else cleanPath (URLPath r) in
    if slashRedirect mux path
    then Redirect w r (URLString (cleanPath (URLPath r) +:+ "/") (RawQuery r))
    else if negb (String.eqb path (URLPath r))
    then Redirect w r (URLString path (RawQuery r))
    else
      match muxMatch mux path with
      | Some e => handler e w r
      | None => NotFound w r
      end.

End http.

(** ** config.go: decoding the body field *)

(** [json.Unmarshal] on the field [Body interface{}]: the field keeps its
    zero value nil when the key [body] is absent ([None]), JSON [null]
    ([Some Nil]) stores nil, and any other value is stored as decoded. *)
Definition unmarshalBody (field : option any) : any :=
  match field with
  | None => Nil
  | Some v => v
  end.

(** ** handler.go: the handler *)

Record MockHandler := mkHandler { routes : list Route }.

Definition NewMockHandler (routes : list Route) : MockHandler :=
  {| routes := routes |}.

Fixpoint findRouteIn (rs : list Route) (method path : string) : option Route :=
  match rs with
  | [] => None
  | route :: rest =>
      if String.eqb (Method route) method && pathMatches (Path route) path
      then Some route
      else findRouteIn rest method path
  end.

Definition findRoute (h : MockHandler) (method path : string) : option Route :=
  findRouteIn (routes h) method path.

Section Handler.

(** [json.Marshal] on a decoded value: the bytes, or [None] on an error. *)
Variable Marshal : any → option string.

(** The order in which a [range] over a map visits its entries.  Go leaves
    it unspecified, and it may differ from one loop to the next. *)
Variable rangeOrder : gmap string string → list (string * string).

(** [json.NewEncoder(w).Encode(v)]: the marshalled value and a line feed;
    nothing is written on an error. *)
Definition Encode (w : http.ResponseWriter) (v : any) : http.ResponseWriter :=
  match Marshal v with
  | Some b => http.Write_ w (b +:+ LF)
  | None => w
  end.

(** The part of [ServeHTTP] after the authorization check. *)
Definition respond (route : Route) (w : http.ResponseWriter) : http.ResponseWriter :=
  let w :=
    match Headers (Response_ route) with
    | Some hs =>
        fold_left (fun w kv => http.HeaderSet w (fst kv) (snd kv)) (rangeOrder hs) w
    | None => w
    end in
  let w := http.HeaderSet w "Content-Type" "application/json" in
  let w := http.WriteHeader w (Status (Response_ route)) in
  if negb (isNil (Body (Response_ route)))
  then Encode w (Body (Response_ route))
  else w.

Definition ServeHTTP (h : MockHandler) : http.Handler :=
  fun w r =>
    match findRoute h (http.ReqMethod r) (http.URLPath r) with
    | None => http.NotFound w r
    | Some route =>
        if RequiresAuth route
           && String.eqb (http.Get (http.ReqHeader r) (AuthHeader route)) ""
        then http.Error w "Unauthorized: missing auth header" http.StatusUnauthorized
        else respond route w
    end.

(** ** main.go: the mux *)

(** The format string of [healthCheckHandler]; it holds no verb, so
    [fmt.Fprintf] writes it as it is. *)
Definition healthPayload : string :=
  "{" +:+ quoted "status" +:+ ":" +:+ quoted "ok" +:+ ","
  +:+ quoted "message" +:+ ":" +:+ quoted "mockery-api is running" +:+ "}".

Definition healthCheckHandler : http.Handler :=
  fun w r =>
    let w := http.HeaderSet w "Content-Type" "application/json" in
    let w := http.WriteHeader w http.StatusOK in
    http.Write_ w healthPayload.

Definition mainMux (rs : list Route) : list http.muxEntry :=
  let handler := NewMockHandler rs in
  let mux := [] in
  let mux := http.Handle mux "/_health" healthCheckHandler in
  http.Handle mux "/" (ServeHTTP handler).

(** One request served by the process [main] starts. *)
Definition serve (rs : list Route) (r : http.Request) : http.ResponseWriter :=
  http.ServeMux_ServeHTTP (mainMux rs) http.newWriter r.

End Handler.

(** [dispatch]: the mock handler on a fresh writer. *)
Definition dispatch (Marshal : any → option string)
    (rangeOrder : gmap string string → list (string * string))
    (rs : list Route) (r : http.Request) : http.ResponseWriter :=
  ServeHTTP Marshal rangeOrder (NewMockHandler rs) http.newWriter r.

(** A range order is admissible when it lists exactly the map's entries. *)
Definition rangeOK (rangeOrder : gmap string string → list (string * string)) : Prop :=
  ∀ m, rangeOrder m ≡ₚ map_to_list m.

(** ** Specification-side vocabulary *)

(** The segments [pathMatches] compares: trim the slashes, split at slashes. *)
Definition segments (s : string) : list string :=
  strings.Split (strings.Trim s "/") "/".

(** A parameter segment: starts with an opening and ends with a closing brace. *)
Definition isParam (patternPart : string) : bool :=
  strings.HasPrefix patternPart "{" && strings.HasSuffix patternPart "}".

(** One pattern segment accepts one path segment. *)
Definition segmentAccepts (patternPart pathPart : string) : Prop :=
  isParam patternPart = true ∨ patternPart = pathPart.

(** The test [findRoute] applies to each route. *)
Definition routeMatches (method path : string) (route : Route) : bool :=
  String.eqb (Method route) method && pathMatches (Path route) path.

(** The test of the authorization step of [ServeHTTP]. *)
Definition authFails (route : Route) (r : http.Request) : bool :=
  RequiresAuth route
  && String.eqb (http.Get (http.ReqHeader r) (AuthHeader route)) "".

(** The header name a configured entry is stored under. *)
Definition canonicalKey (kv : string * string) : string :=
  textproto.CanonicalMIMEHeaderKey kv.1.

(** The configured header names of a route stay distinct after
    canonicalization. *)
Definition headersDistinct (route : Route) : Prop :=
  match Headers (Response_ route) with
  | Some hs => NoDup (canonicalKey <$> map_to_list hs)
  | None => True
  end.

(** A second admissible range order: the first one backwards. *)
Definition reversed (m : gmap string string) : list (string * string) :=
  reverse (map_to_list m).

(** A final status code: [WriteHeader] accepts it and makes it the status
    of the response (101, and 200 to 999). *)
Definition finalCode (code : Z) : bool :=
  http.validCode code && negb (http.informational code).

(** The header map the configured headers give: each entry, in the order
    of the range, stored under its canonical name with its one value. *)
Definition configuredHeaders
    (rangeOrder : gmap string string → list (string * string)) (route : Route)
  : gmap string (list string) :=
  match Headers (Response_ route) with
  | Some hs =>
      fold_left (λ h kv, <[textproto.CanonicalMIMEHeaderKey kv.1 := [kv.2]]> h)
        (rangeOrder hs) ∅
  | None => ∅
  end.

(** The bytes the configured body gives: none for nil and for a value
    that does not marshal, else the marshalled value and a line feed. *)
Definition bodyBytes (Marshal : any → option string) (route : Route) : string :=
  match Body (Response_ route) with
  | Nil => ""
  | v => match Marshal v with
         | Some b => b +:+ LF
         | None => ""
         end
  end.

(** The outcome of a route's configured response, by the class of its
    status code.  The header map is the same in all three: the configured
    headers, with Content-Type replaced by application/json.
    - A code outside 100..999: the handler panics in [WriteHeader]; there
      is no status and no body.
    - An informational code: it is sent ahead; the body, when there is
      one, goes out under the implicit status 200.
    - A final code: it is the status, with the body. *)
Definition configuredOutcome (Marshal : any → option string)
    (rangeOrder : gmap string string → list (string * string)) (route : Route)
  : http.ResponseWriter :=
  let status := Status (Response_ route) in
  let header :=
    <["Content-Type" := ["application/json"]]> (configuredHeaders rangeOrder route) in
  let body := bodyBytes Marshal route in
  if negb (http.validCode status) then
    {| http.wHeader := header; http.wCode := None; http.wBody := "";
       http.wEarly := []; http.wPanic := Some status |}
  else if http.informational status then
    {| http.wHeader := header;
       http.wCode := if String.eqb body "" then None else Some 200;
       http.wBody := body; http.wEarly := [status]; http.wPanic := None |}
  else
    {| http.wHeader := header; http.wCode := Some status; http.wBody := body;
       http.wEarly := []; http.wPanic := None |}.

(** The outcome of a failed authorization check. *)
Definition unauthorizedOutcome : http.ResponseWriter :=
  {| http.wHeader :=
       <["X-Content-Type-Options" := ["nosniff"]]>
         (<["Content-Type" := ["text/plain; charset=utf-8"]]> ∅);
     http.wCode := Some 401;
     http.wBody := "Unauthorized: missing auth header" +:+ LF;
     http.wEarly := [];
     http.wPanic := None |}.

(** ** Sample configuration *)

Definition plain (status : Z) (body : any) : Response :=
  {| Status := status; Headers := None; Body := body |}.

(** A marshaller for sample evaluations: the text [json.Marshal] gives for
    nil and for the booleans; the samples below use no other body. *)
Definition sampleMarshal (v : any) : option string :=
  match v with
  | Nil => Some "null"
  | Bool true => Some "true"
  | Bool false => Some "false"
  | _ => None
  end.

Definition usersAuth : Route :=
  mkRoute "/api/users" "GET" true "Authorization"
    (mkResponse 200 (Some {[ "X-Custom-Header" := "value" ]}) (Bool true)).

Definition settingsText : Route :=
  mkRoute "/api/settings" "PATCH" true "x-api-key"
    (mkResponse 200 (Some {[ "content-type" := "text/plain" ]}) (Bool false)).

Definition bodyNull : Route :=
  mkRoute "/api/status" "GET" false ""
    (mkResponse 200 None (unmarshalBody (Some Nil))).

Definition bodyAbsent : Route :=
  mkRoute "/api/status" "GET" false ""
    (mkResponse 200 None (unmarshalBody None)).

Definition healthOverride : Route :=
  mkRoute "/_health" "GET" false "" (plain 503 (Bool false)).

Definition getUsers (hdr : gmap string (list string)) : http.Request :=
  http.mkRequest "GET" "/api/users" "" hdr.

Definition collidingHeaders : Route :=
  mkRoute "/api/ping" "GET" false ""
    (mkResponse 200 (Some {[ "x-a" := "1"; "X-A" := "2" ]}) Nil).

Definition usersById : Route :=
  mkRoute "/api/users/{id}" "GET" false "" (plain 200 (Bool true)).

Definition usersAdmin : Route :=
  mkRoute "/api/users/admin" "GET" false "" (plain 200 (Bool false)).

Definition productsList : Route :=
  mkRoute "/api/products" "GET" false "" (plain 200 (Bool true)).

Definition productById : Route :=
  mkRoute "/api/products/{id}" "GET" false "" (plain 200 (Bool true)).

(** A route with two configured headers whose names stay distinct. *)
Definition twoHeaders : Route :=
  mkRoute "/api/ping" "GET" false ""
    (mkResponse 201 (Some {[ "x-first" := "1"; "X-Second" := "2" ]}) (Bool true)).

(** Routes whose status the configuration leaves out (0), and with an
    informational status. *)
Definition statusZero : Route :=
  mkRoute "/api/zero" "GET" false "" (plain 0 (Bool true)).

Definition statusEarly : Route :=
  mkRoute "/api/early" "GET" false "" (plain 103 (Bool true)).

(** ** config.go: validation and loading *)

Record ServerConfig := mkServer { Port : Z }.

Record Config := mkConfig { Server : ServerConfig; Routes : list Route }.

(** The errors [validateConfig] builds with [fmt.Errorf], with the values
    their format strings take. *)
Inductive configError : Type :=
| InvalidPort (port : Z)
| EmptyPath (i : nat)
| InvalidMethod (i : nat) (method : string)
| AuthHeaderRequired (i : nat).

(** The [%d] verb on an [int] and on a slice index. *)
Definition formatInt (n : Z) : string := NilZero.string_of_int (Z.to_int n).
Definition formatIndex (i : nat) : string := NilZero.string_of_uint (Nat.to_uint i).

(** The message of each error. *)
Definition errorText (e : configError) : string :=
  match e with
  | InvalidPort port => "invalid port number: " +:+ formatInt port
  | EmptyPath i => "route " +:+ formatIndex i +:+ ": path cannot be empty"
  | InvalidMethod i method =>
      "route " +:+ formatIndex i +:+ ": invalid method " +:+ method
  | AuthHeaderRequired i =>
      "route " +:+ formatIndex i
      +:+ ": authHeader required when requiresAuth is true"
  end.

Definition validMethods : gmap string bool :=
  {[ "GET" := true; "POST" := true; "PUT" := true;
     "DELETE" := true; "PATCH" := true; "HEAD" := true ]}.

(** The loop of [validateConfig] from index [i] on; a missing key of
    [validMethods] reads as [false]. *)
Fixpoint validateRoutes (i : nat) (rs : list Route) : option configError :=
  match rs with
  | [] => None
  | route :: rest =>
      if String.eqb (Path route) "" then Some (EmptyPath i)
      else if negb (default false (validMethods !! Method route))
      then Some (InvalidMethod i (Method route))
      else if RequiresAuth route && String.eqb (AuthHeader route) ""
      then Some (AuthHeaderRequired i)
      else validateRoutes (S i) rest
  end.

(** [validateConfig]: [None] is the nil error. *)
Definition validateConfig (config : Config) : option configError :=
  if (Port (Server config) <=? 0) || (65535 <? Port (Server config))
  then Some (InvalidPort (Port (Server config)))
  else validateRoutes 0 (Routes config).

(** A Go result pair [(value, error)] with the error's message. *)
Inductive result (A : Type) : Type :=
| Ok (a : A)
| Err (msg : string).
Arguments Ok {A} a.
Arguments Err {A} msg.

Section Startup.

(** [os.ReadFile] and [json.Unmarshal] into a [Config]. *)
Variable ReadFile : string → result string.
Variable Unmarshal : string → result Config.
Variable Marshal : any → option string.
Variable rangeOrder : gmap string string → list (string * string).

Definition LoadConfig (filename : string) : result Config :=
  match ReadFile filename with
  | Err e => Err ("failed to read config file: " +:+ e)
  | Ok data =>
      match Unmarshal data with
      | Err e => Err ("failed to parse config file: " +:+ e)
      | Ok config =>
          match validateConfig config with
          | Some e => Err ("invalid config: " +:+ errorText e)
          | None => Ok config
          end
      end
  end.


End Startup.

(** ** The earlier handler: routes matched by exact path *)

Module v1.

Fixpoint findRouteIn (rs : list Route) (method path : string) : option Route :=
  match rs with
  | [] => None
  | route :: rest =>
      if String.eqb (Method route) method && String.eqb (Path route) path
      then Some route
      else findRouteIn rest method path
  end.

Definition findRoute (h : MockHandler) (method path : string) : option Route :=
  findRouteIn (routes h) method path.

(** Its [ServeHTTP] has the text of the current one. *)
Definition ServeHTTP (Marshal : any → option string)
    (rangeOrder : gmap string string → list (string * string))
    (h : MockHandler) : http.Handler :=
  fun w r =>
    match findRoute h (http.ReqMethod r) (http.URLPath r) with
    | None => http.NotFound w r
    | Some route =>
        if RequiresAuth route
           && String.eqb (http.Get (http.ReqHeader r) (AuthHeader route)) ""
        then http.Error w "Unauthorized: missing auth header" http.StatusUnauthorized
        else respond Marshal rangeOrder route w
    end.

End v1.

(** ** Vocabulary for validation *)

Definition methodAllowed (m : string) : Prop :=
  m ∈ ["GET"; "POST"; "PUT"; "DELETE"; "PATCH"; "HEAD"].

Definition routeValid (route : Route) : Prop :=
  Path route ≠ ""
  ∧ methodAllowed (Method route)
  ∧ (RequiresAuth route = true → AuthHeader route ≠ "").

(** The three checks of the loop body of [validateConfig] on one route. *)
Definition checkRoute (i : nat) (route : Route) : option configError :=
  if String.eqb (Path route) "" then Some (EmptyPath i)
  else if negb (default false (validMethods !! Method route))
  then Some (InvalidMethod i (Method route))
  else if RequiresAuth route && String.eqb (AuthHeader route) ""
  then Some (AuthHeaderRequired i)
  else None.

(** Route [i] fails with error [e]: the checks run in the order path,
    method, authorization header, and the first that fails is reported. *)
Definition routeFails (i : nat) (route : Route) (e : configError) : Prop :=
  match e with
  | InvalidPort _ => False
  | EmptyPath j => j = i ∧ Path route = ""
  | InvalidMethod j m =>
      j = i ∧ Path route ≠ "" ∧ m = Method route ∧ ¬ methodAllowed m
  | AuthHeaderRequired j =>
      j = i ∧ Path route ≠ "" ∧ methodAllowed (Method route)
      ∧ RequiresAuth route = true ∧ AuthHeader route = ""
  end.

(** The configuration fails with error [e]: the port is checked before any
    route, and the routes in order. *)
Definition configFails (config : Config) (e : configError) : Prop :=
  match e with
  | InvalidPort p =>
      p = Port (Server config) ∧ (p ≤ 0 ∨ 65535 < p)
  | _ =>
      1 ≤ Port (Server config) ≤ 65535
      ∧ ∃ k route,
          Routes config !! k = Some route
          ∧ Forall routeValid (take k (Routes config))
          ∧ routeFails k route e
  end.

(** What [http.NotFound] records on a fresh writer. *)
Definition notFoundOutcome : http.ResponseWriter :=
  {| http.wHeader :=
       <["X-Content-Type-Options" := ["nosniff"]]>
         (<["Content-Type" := ["text/plain; charset=utf-8"]]> ∅);
     http.wCode := Some 404;
     http.wBody := "404 page not found" +:+ LF;
     http.wEarly := [];
     http.wPanic := None |}.





Definition badMethodConfig : Config :=
  mkConfig (mkServer 3000)
    [usersAuth; mkRoute "/api/x" "get" false "" (plain 200 Nil)].

(** ** The documentation generator: example paths *)

(** The slice expressions [s[:hi]] and [s[lo:]], for bounds within [s]. *)
Definition sliceTo (s : string) (hi : Z) : string :=
  String.substring 0 (Z.to_nat hi) s.

Definition sliceFrom (s : string) (lo : Z) : string :=
  String.substring (Z.to_nat lo) (String.length s - Z.to_nat lo) s.

Module curls.

Definition replacements : gmap string string :=
  {[ "{id}" := "123"; "{userId}" := "456"; "{productId}" := "789";
     "{orderId}" := "order-123"; "{itemId}" := "item-456" ]}.

(** The second loop of [convertPathToExample].  Each turn that does not
    leave the loop removes an opening brace; [fuel] bounds the turns, and
    [None] means the bound was too small. *)
Fixpoint replaceRemaining (fuel : nat) (result : string) : option string :=
  if strings.Contains result "{" then
    match fuel with
    | O => None
    | S fuel' =>
        let start := strings.Index result "{" in
        let end_ := strings.Index result "}" in
        if start <? end_
        then replaceRemaining fuel'
               (sliceTo result start +:+ "example-value"
                +:+ sliceFrom result (end_ + 1))
        else Some result
    end
  else Some result.

Section Convert.

(** The order in which the first loop visits [replacements]. *)
Variable rangeOrder : gmap string string → list (string * string).

(** The first loop of [convertPathToExample]. *)
Definition replaceKnown (path : string) : string :=
  fold_left (λ result kv, strings.ReplaceAll result kv.1 kv.2)
    (rangeOrder replacements) path.

Definition convertPathToExample (path : string) : option string :=
  let result := replaceKnown path in
  replaceRemaining (S (String.length result)) result.

End Convert.

End curls.

(** The number of occurrences of a byte. *)
Fixpoint countByte (c : ascii) (s : string) : nat :=
  match s with
  | EmptyString => 0
  | String d s' => (if Ascii.eqb d c then 1 else 0) + countByte c s'
  end.

(** ** Vocabulary for patterns made of whole segments *)

(** A segment of a pattern: a literal, or a parameter with its name. *)
Inductive segment : Type :=
| Lit (s : string)
| Param (name : string).

Definition text (seg : segment) : string :=
  match seg with
  | Lit s => s
  | Param name => String "{" (name +:+ "}")
  end.

(** The pattern whose segments are [segs], each after a slash. *)
Fixpoint render (segs : list segment) : string :=
  match segs with
  | [] => ""
  | seg :: rest => String "/" (text seg +:+ render rest)
  end.

(** A text without slash and braces. *)
Definition plainText (s : string) : Prop :=
  countByte "/" s = 0%nat ∧ countByte "{" s = 0%nat ∧ countByte "}" s = 0%nat.

(** A literal segment is a non-empty plain text; a parameter's name is
    a plain text. *)
Definition segmentOK (seg : segment) : Prop :=
  match seg with
  | Lit s => s ≠ "" ∧ plainText s
  | Param name => plainText name
  end.

(** What the first loop of [convertPathToExample] does to a segment for
    one entry, and the second loop to a parameter it still finds. *)
Definition substSegment (k v : string) (seg : segment) : segment :=
  match seg with
  | Lit s => Lit s
  | Param name => if String.eqb k name then Lit v else Param name
  end.

Definition toExample (seg : segment) : segment :=
  match seg with
  | Lit s => Lit s
  | Param _ => Lit "example-value"
  end.

(** [b] is [a] with, possibly, a value in place of a parameter. *)
Definition filledFrom (a b : segment) : Prop :=
  match a, b with
  | Lit s, Lit s' => s = s'
  | Param n, Param n' => n = n'
  | Param _, Lit v => v ≠ "" ∧ plainText v
  | Lit _, Param _ => False
  end.

(** An entry of [replacements]: a key [{k}] with no closing brace in [k],
    and a non-empty plain value. *)
Definition entryOK (kv : string * string) : Prop :=
  ∃ k, kv.1 = String "{" (k +:+ "}") ∧ countByte "}" k = 0%nat
       ∧ kv.2 ≠ "" ∧ plainText kv.2.

(** ** Examples *)

Example split_ex1 : strings.Split "api//foo" "/" = ["api"; ""; "foo"].
Proof. reflexivity. Qed.
Example split_ex2 : strings.Split "" "/" = [""].
Proof. reflexivity. Qed.
Example split_ex3 : strings.Split "a/b/" "/" = ["a"; "b"; ""].
Proof. reflexivity. Qed.
Example trim_ex1 : strings.Trim "//a/b//" "/" = "a/b".
Proof. reflexivity. Qed.
Example trim_ex2 : strings.Trim "/" "/" = "".
Proof. reflexivity. Qed.
Example pm_ex1 : pathMatches "/api/products/{id}" "/api/products/101" = true.
Proof. reflexivity. Qed.
Example pm_ex2 : pathMatches "/api/products/{id}" "/api/products" = false.
Proof. reflexivity. Qed.
Example pm_ex3 : pathMatches "/api/products/{id}" "/api/products/101/extra" = false.
Proof. reflexivity. Qed.
Example pm_ex4 :
  pathMatches "/api/orders/{orderId}/items/{itemId}" "/api/orders/12345/items/67890" = true.
Proof. reflexivity. Qed.
Example canon_ex1 : textproto.CanonicalMIMEHeaderKey "content-type" = "Content-Type".
Proof. reflexivity. Qed.
Example canon_ex2 : textproto.CanonicalMIMEHeaderKey "x-API-key" = "X-Api-Key".
Proof. reflexivity. Qed.
Example canon_ex3 : textproto.CanonicalMIMEHeaderKey "my key" = "my key".
Proof. reflexivity. Qed.

(** ** Strings *)

Lemma eqb_false_neq (a b : string) : String.eqb a b = false ↔ a ≠ b.
Proof. apply String.eqb_neq. Qed.

Lemma length_append (a b : string) :
  String.length (a +:+ b) = (String.length a + String.length b)%nat.
Proof. induction a as [|c a IH]; simpl; [reflexivity | now rewrite IH]. Qed.

Lemma append_slash_neq (p : string) : p ≠ p +:+ "/".
Proof.
  intros H. apply (f_equal String.length) in H.
  rewrite length_append in H. simpl in H. lia.
Qed.

Lemma TrimRight_snoc (s cutset : string) (c : ascii) :
  strings.inCutset c cutset = true →
  strings.TrimRight (s +:+ String c "") cutset = strings.TrimRight s cutset.
Proof.
  intros Hc. induction s as [|a s IH]; simpl.
  - now rewrite Hc.
  - now rewrite IH.
Qed.

Lemma Trim_trailing_slash (s : string) :
  strings.Trim (s +:+ "/") "/" = strings.Trim s "/".
Proof. unfold strings.Trim. now rewrite TrimRight_snoc. Qed.

Lemma segments_trailing_slash (s : string) : segments (s +:+ "/") = segments s.
Proof. unfold segments. now rewrite Trim_trailing_slash. Qed.

(** ** The segment loop *)

Lemma segmentsMatch_refl (parts : list string) : segmentsMatch parts parts = true.
Proof.
  induction parts as [|p parts IH]; simpl; [reflexivity|].
  rewrite String.eqb_refl. simpl. now destruct (_ && _).
Qed.

Lemma segmentsMatch_Forall2 (patternParts pathParts : list string) :
  length patternParts = length pathParts →
  segmentsMatch patternParts pathParts = true ↔
  Forall2 segmentAccepts patternParts pathParts.
Proof.
  revert pathParts.
  induction patternParts as [|pp pps IH]; intros [|ps pss] Hlen;
    simpl in Hlen; try discriminate.
  - split; [constructor | reflexivity].
  - injection Hlen as Hlen. specialize (IH pss Hlen).
    simpl. fold (isParam pp). unfold segmentAccepts at 1.
    destruct (isParam pp) eqn:Hpar.
    + rewrite IH. split.
      * intros H. constructor; [now left | exact H].
      * intros H. now inversion H.
    + destruct (String.eqb pp ps) eqn:Heq; simpl.
      * apply String.eqb_eq in Heq. rewrite IH. split.
        -- intros H. constructor; [now right | exact H].
        -- intros H. now inversion H.
      * apply String.eqb_neq in Heq. split; [discriminate|].
        intros H. inversion H as [|? ? ? ? [Hp|Hp] _]; subst; congruence.
Qed.

Lemma pathMatches_unfold (pattern path : string) :
  pathMatches pattern path =
    String.eqb pattern path
    || (strings.Contains pattern "{"
        && (length (segments pattern) =? length (segments path))%nat
        && segmentsMatch (segments pattern) (segments path)).
Proof.
  unfold pathMatches, segments.
  destruct (String.eqb pattern path); [reflexivity|].
  destruct (strings.Contains pattern "{"); [|reflexivity].
  simpl. now destruct (_ =? _)%nat.
Qed.

Lemma pathMatches_static (pattern path : string) :
  strings.Contains pattern "{" = false →
  pathMatches pattern path = String.eqb pattern path.
Proof.
  intros H. rewrite pathMatches_unfold, H. simpl. apply orb_false_r.
Qed.

Lemma pathMatches_trailing_slash (pattern path : string) :
  strings.Contains pattern "{" = true →
  pathMatches pattern (path +:+ "/") = pathMatches pattern path.
Proof.
  intros Hc. rewrite !pathMatches_unfold, Hc, segments_trailing_slash. simpl.
  destruct (String.eqb pattern (path +:+ "/")) eqn:E1;
    destruct (String.eqb pattern path) eqn:E2; simpl; try reflexivity.
  - apply String.eqb_eq in E1. subst pattern.
    rewrite segments_trailing_slash, Nat.eqb_refl. simpl.
    symmetry. apply segmentsMatch_refl.
  - apply String.eqb_eq in E2. subst pattern.
    rewrite Nat.eqb_refl. simpl. apply segmentsMatch_refl.
Qed.

(** ** Path matching: the claims *)

(** C1, as the code has it: besides the exact-equality fast path,
    [pathMatches] holds exactly when the pattern contains an opening brace
    and the two segment lists are accepted pairwise, where a parameter
    segment accepts whatever path segment stands at its position, the empty
    segment included, and any other segment accepts only itself. *)
Theorem pathMatches_param_accepts_any (pattern path : string) :
  pathMatches pattern path = true ↔
  pattern = path
  ∨ (strings.Contains pattern "{" = true
     ∧ Forall2 segmentAccepts (segments pattern) (segments path)).
Proof.
  rewrite pathMatches_unfold, orb_true_iff, !andb_true_iff, String.eqb_eq.
  split.
  - intros [H | [[Hc Hlen] Hm]]; [now left | right].
    apply Nat.eqb_eq in Hlen. split; [exact Hc|].
    now apply segmentsMatch_Forall2.
  - intros [H | [Hc HF]]; [now left | right].
    pose proof (Forall2_length _ _ _ HF) as Hlen.
    repeat split; [exact Hc | now apply Nat.eqb_eq |].
    now apply segmentsMatch_Forall2.
Qed.

(** C1, as stated, fails: a parameter segment is matched against the empty
    segment between two consecutive slashes, and against the empty segment
    the root path trims to. *)
Lemma param_matches_empty_segment :
  pathMatches "/api/{id}/foo" "/api//foo" = true
  ∧ segments "/api/{id}/foo" !! 1%nat = Some "{id}"
  ∧ segments "/api//foo" !! 1%nat = Some ""
  ∧ isParam "{id}" = true
  ∧ pathMatches "/{id}" "/" = true
  ∧ segments "/{id}" = ["{id}"]
  ∧ segments "/" = [""].
Proof. repeat split; reflexivity. Qed.

(** C10: [pathMatches] is reflexive, so a request for the literal text of a
    route's pattern, braces included, selects a route with that pattern and
    the request's method when it stands first. *)
Theorem pathMatches_reflexive :
  (∀ p, pathMatches p p = true)
  ∧ (∀ route rest,
       findRoute (NewMockHandler (route :: rest)) (Method route) (Path route)
       = Some route)
  ∧ findRoute (NewMockHandler [productById]) "GET" "/api/products/{id}"
    = Some productById.
Proof.
  assert (Hrefl : ∀ p, pathMatches p p = true).
  { intros p. unfold pathMatches. now rewrite String.eqb_refl. }
  split; [exact Hrefl|]. split; [|reflexivity].
  intros route rest. unfold findRoute. simpl.
  now rewrite String.eqb_refl, Hrefl.
Qed.

(** ** Route resolution *)

Lemma findRouteIn_Some (rs : list Route) (method path : string) (route : Route) :
  findRouteIn rs method path = Some route ↔
  ∃ before after,
    rs = before ++ route :: after
    ∧ routeMatches method path route = true
    ∧ Forall (λ x, routeMatches method path x = false) before.
Proof.
  induction rs as [|r rs IH]; simpl.
  - split; [discriminate|]. intros (before & after & H & _).
    now destruct before.
  - fold (routeMatches method path r).
    destruct (routeMatches method path r) eqn:Hr.
    + split.
      * intros [= <-]. exists [], rs. repeat split; [exact Hr | constructor].
      * intros (before & after & Heq & Hm & Hb).
        destruct before as [|b before]; simpl in Heq.
        -- now injection Heq as -> _.
        -- injection Heq as -> _. inversion Hb; congruence.
    + rewrite IH. split.
      * intros (before & after & -> & Hm & Hb).
        exists (r :: before), after. repeat split; [exact Hm | now constructor].
      * intros (before & after & Heq & Hm & Hb).
        destruct before as [|b before]; simpl in Heq.
        -- injection Heq as -> _. congruence.
        -- injection Heq as -> ->. exists before, after.
           repeat split; [exact Hm | now inversion Hb].
Qed.

Lemma findRouteIn_None (rs : list Route) (method path : string) :
  findRouteIn rs method path = None ↔
  Forall (λ x, routeMatches method path x = false) rs.
Proof.
  induction rs as [|r rs IH]; simpl.
  - split; [constructor | reflexivity].
  - fold (routeMatches method path r).
    destruct (routeMatches method path r) eqn:Hr.
    + split; [discriminate|]. intros H. inversion H; congruence.
    + rewrite IH. split; [now constructor | now inversion 1].
Qed.

(** C2: [findRoute] returns the first route, in declaration order, whose
    method equals the request's and whose pattern matches the path, and no
    route when none does; an earlier parameterized route is selected over a
    later literal route that matches too. *)
Theorem findRoute_first_match :
  (∀ h method path route,
     findRoute h method path = Some route ↔
     ∃ before after,
       routes h = before ++ route :: after
       ∧ routeMatches method path route = true
       ∧ Forall (λ x, routeMatches method path x = false) before)
  ∧ (∀ h method path,
       findRoute h method path = None ↔
       Forall (λ x, routeMatches method path x = false) (routes h))
  ∧ findRoute (NewMockHandler [usersById; usersAdmin]) "GET" "/api/users/admin"
    = Some usersById
  ∧ routeMatches "GET" "/api/users/admin" usersAdmin = true.
Proof.
  split; [|split; [|split; reflexivity]].
  - intros h method path route. apply findRouteIn_Some.
  - intros h method path. apply findRouteIn_None.
Qed.

(** C6, as the code has it: a path and the same path with one slash
    appended resolve to the same route when every route whose pattern has
    no opening brace differs from both paths; such a pattern matches by
    exact equality only. *)
Theorem findRoute_trailing_slash (h : MockHandler) (method path : string) :
  Forall (λ route,
            strings.Contains (Path route) "{" = true
            ∨ (Path route ≠ path ∧ Path route ≠ path +:+ "/"))
         (routes h) →
  findRoute h method (path +:+ "/") = findRoute h method path.
Proof.
  unfold findRoute. induction 1 as [|r rs Hr _ IH]; simpl; [reflexivity|].
  assert (Hpm : pathMatches (Path r) (path +:+ "/") = pathMatches (Path r) path).
  { destruct Hr as [Hc | [H1 H2]].
    - now apply pathMatches_trailing_slash.
    - destruct (strings.Contains (Path r) "{") eqn:Hc.
      + now apply pathMatches_trailing_slash.
      + rewrite !pathMatches_static by exact Hc.
        apply String.eqb_neq in H1, H2. now rewrite H1, H2. }
  now rewrite Hpm, IH.
Qed.

(** The theorem at a table with a literal and a parameterized route. *)
Lemma findRoute_trailing_slash_witness :
  Forall (λ route,
            strings.Contains (Path route) "{" = true
            ∨ (Path route ≠ "/api/products/101"
               ∧ Path route ≠ "/api/products/101" +:+ "/"))
         (routes (NewMockHandler [productsList; productById]))
  ∧ findRoute (NewMockHandler [productsList; productById]) "GET"
      ("/api/products/101" +:+ "/")
    = findRoute (NewMockHandler [productsList; productById]) "GET"
        "/api/products/101".
Proof.
  assert (H : Forall (λ route,
            strings.Contains (Path route) "{" = true
            ∨ (Path route ≠ "/api/products/101"
               ∧ Path route ≠ "/api/products/101" +:+ "/"))
         (routes (NewMockHandler [productsList; productById]))).
  { constructor; [right; split; discriminate|].
    constructor; [left; reflexivity | constructor]. }
  split; [exact H|].
  exact (findRoute_trailing_slash _ "GET" "/api/products/101" H).
Defined.

(** C6, as stated, fails: a literal route matches its own path and not the
    same path with a slash appended. *)
Lemma static_route_trailing_slash :
  findRoute (NewMockHandler [productsList]) "GET" "/api/products"
  = Some productsList
  ∧ findRoute (NewMockHandler [productsList]) "GET" ("/api/products" +:+ "/")
    = None.
Proof. split; reflexivity. Qed.

(** ** The response writer *)

(** The header loop on a writer whose handler is running. *)
Lemma setHeaders_running (kvs : list (string * string)) w :
  http.running w = true →
  fold_left (λ w kv, http.HeaderSet w kv.1 kv.2) kvs w
  = {| http.wHeader := fold_left (λ h kv, http.Set_ h kv.1 kv.2) kvs (http.wHeader w);
       http.wCode := http.wCode w; http.wBody := http.wBody w;
       http.wEarly := http.wEarly w; http.wPanic := http.wPanic w |}.
Proof.
  revert w. induction kvs as [|kv kvs IH]; intros w Hw; cbn [fold_left].
  - now destruct w.
  - unfold http.HeaderSet at 2. rewrite Hw. rewrite IH; [reflexivity|].
    unfold http.running in *. exact Hw.
Qed.

Lemma setHeaders_stopped (kvs : list (string * string)) w :
  http.running w = false →
  fold_left (λ w kv, http.HeaderSet w kv.1 kv.2) kvs w = w.
Proof.
  intros Hw. induction kvs as [|kv kvs IH]; cbn [fold_left]; [reflexivity|].
  unfold http.HeaderSet at 2. now rewrite Hw.
Qed.

Lemma append_LF_nonempty (b : string) : String.eqb (b +:+ LF) "" = false.
Proof. now destruct b. Qed.

(** What the part of [ServeHTTP] after the authorization check records on
    a fresh writer. *)
Lemma respond_fresh Marshal rangeOrder route :
  respond Marshal rangeOrder route http.newWriter
  = configuredOutcome Marshal rangeOrder route.
Proof.
  unfold respond, configuredOutcome, configuredHeaders, bodyBytes.
  set (w0 := match Headers (Response_ route) with Some hs => _ | None => _ end).
  set (h0 := match Headers (Response_ route) with Some hs => _ | None => _ end).
  assert (H0 : w0 = {| http.wHeader := h0; http.wCode := None; http.wBody := "";
                       http.wEarly := []; http.wPanic := None |}).
  { subst w0 h0. destruct (Headers (Response_ route)); [|reflexivity].
    now rewrite setHeaders_running. }
  rewrite H0. clear H0 w0.
  unfold http.HeaderSet, http.WriteHeader.
  cbn [http.running http.wPanic http.wCode http.wHeader http.wBody http.wEarly].
  unfold http.Set_.
  change (textproto.CanonicalMIMEHeaderKey "Content-Type") with "Content-Type".
  destruct (http.validCode (Status (Response_ route))) eqn:Hv; cbn [negb].
  - destruct (http.informational (Status (Response_ route))) eqn:Hi.
    + destruct (Body (Response_ route)); cbn [isNil negb]; try reflexivity;
        unfold Encode; (destruct (Marshal _); [|reflexivity]);
        unfold http.Write_, http.WriteHeader;
        cbn [http.running http.wPanic http.wCode http.wHeader http.wBody
             http.wEarly];
        rewrite append_LF_nonempty; reflexivity.
    + destruct (Body (Response_ route)); cbn [isNil negb]; try reflexivity;
        unfold Encode; (destruct (Marshal _); reflexivity).
  - destruct (Body (Response_ route)); cbn [isNil negb]; try reflexivity;
      unfold Encode; (destruct (Marshal _); reflexivity).
Qed.

(** [http.Header.Get] gives the empty string exactly when the header is
    missing, has no value, or has the empty string as its first value. *)
Lemma Get_empty (h : gmap string (list string)) (key : string) :
  http.Get h key = "" ↔
  h !! textproto.CanonicalMIMEHeaderKey key = None
  ∨ h !! textproto.CanonicalMIMEHeaderKey key = Some []
  ∨ ∃ vs, h !! textproto.CanonicalMIMEHeaderKey key = Some ("" :: vs).
Proof.
  unfold http.Get.
  destruct (h !! textproto.CanonicalMIMEHeaderKey key) as [[|v vs]|]; split;
    try (intros _; tauto); try reflexivity.
  - intros ->. right; right. now exists vs.
  - intros [H | [H | [vs' H]]]; try discriminate. now injection H as ->.
Qed.

(** ** The decision pipeline *)

Lemma dispatch_unfold Marshal rangeOrder rs r route :
  findRoute (NewMockHandler rs) (http.ReqMethod r) (http.URLPath r) = Some route →
  dispatch Marshal rangeOrder rs r =
    if authFails route r
    then http.Error http.newWriter "Unauthorized: missing auth header"
           http.StatusUnauthorized
    else respond Marshal rangeOrder route http.newWriter.
Proof. intros H. unfold dispatch, ServeHTTP. now rewrite H. Qed.

Lemma dispatch_NotFound Marshal rangeOrder rs r :
  findRoute (NewMockHandler rs) (http.ReqMethod r) (http.URLPath r) = None →
  dispatch Marshal rangeOrder rs r = http.NotFound http.newWriter r.
Proof. intros H. unfold dispatch, ServeHTTP. now rewrite H. Qed.

Lemma Error_unauthorized :
  http.Error http.newWriter "Unauthorized: missing auth header"
    http.StatusUnauthorized = unauthorizedOutcome.
Proof. reflexivity. Qed.

(** The three outcomes of the mock handler. *)
Lemma dispatch_outcome Marshal rangeOrder rs r :
  dispatch Marshal rangeOrder rs r =
    match findRoute (NewMockHandler rs) (http.ReqMethod r) (http.URLPath r) with
    | None => notFoundOutcome
    | Some route =>
        if authFails route r then unauthorizedOutcome
        else configuredOutcome Marshal rangeOrder route
    end.
Proof.
  destruct (findRoute _ _ _) as [route|] eqn:Hfind.
  - rewrite (dispatch_unfold _ _ _ _ _ Hfind).
    now rewrite Error_unauthorized, respond_fresh.
  - now rewrite (dispatch_NotFound _ _ _ _ Hfind).
Qed.

(** C3, as the code has it: on a matched route that requires authorization
    the check reads [Header.Get], the first value stored under the canonical
    form of the header name.  When that is the empty string (header missing,
    present without a value, or with an empty first value) the outcome is
    the 401 of [http.Error]; otherwise it is the route's configured
    response, in which the request does not occur. *)
Theorem auth_by_presence Marshal rangeOrder rs r route :
  findRoute (NewMockHandler rs) (http.ReqMethod r) (http.URLPath r) = Some route →
  RequiresAuth route = true →
  (http.Get (http.ReqHeader r) (AuthHeader route) = "" ↔
   http.ReqHeader r !! textproto.CanonicalMIMEHeaderKey (AuthHeader route) = None
   ∨ http.ReqHeader r !! textproto.CanonicalMIMEHeaderKey (AuthHeader route) = Some []
   ∨ ∃ vs, http.ReqHeader r !! textproto.CanonicalMIMEHeaderKey (AuthHeader route)
           = Some ("" :: vs))
  ∧ (http.Get (http.ReqHeader r) (AuthHeader route) = "" →
     dispatch Marshal rangeOrder rs r = unauthorizedOutcome)
  ∧ (http.Get (http.ReqHeader r) (AuthHeader route) ≠ "" →
     dispatch Marshal rangeOrder rs r
     = configuredOutcome Marshal rangeOrder route).
Proof.
  intros Hfind Hauth. split; [apply Get_empty|].
  rewrite dispatch_outcome, Hfind. unfold authFails. rewrite Hauth.
  cbn [andb]. split.
  - now intros ->.
  - intros Hne. apply String.eqb_neq in Hne. now rewrite Hne.
Qed.

(** The theorem at the sample table: a request that carries the header
    gets the configured response, and one without headers the 401. *)
Lemma auth_by_presence_witness :
  dispatch sampleMarshal map_to_list [usersById; usersAuth]
    (getUsers {[ "Authorization" := ["Bearer token"] ]})
  = {| http.wHeader :=
         {[ "Content-Type" := ["application/json"];
            "X-Custom-Header" := ["value"] ]};
       http.wCode := Some 200;
       http.wBody := "true" +:+ LF;
       http.wEarly := [];
       http.wPanic := None |}
  ∧ dispatch sampleMarshal map_to_list [usersById; usersAuth] (getUsers ∅)
    = unauthorizedOutcome.
Proof.
  destruct (auth_by_presence sampleMarshal map_to_list [usersById; usersAuth]
              (getUsers {[ "Authorization" := ["Bearer token"] ]}) usersAuth
              eq_refl eq_refl) as (_ & _ & Hpresent).
  destruct (auth_by_presence sampleMarshal map_to_list [usersById; usersAuth]
              (getUsers ∅) usersAuth eq_refl eq_refl) as (_ & Habsent & _).
  split.
  - rewrite Hpresent; [reflexivity | discriminate].
  - apply Habsent. reflexivity.
Defined.

(** C3, as stated, fails: a request whose header has a non-empty value
    after an empty first one gets the 401. *)
Lemma first_value_decides :
  findRoute (NewMockHandler [usersAuth]) "GET" "/api/users" = Some usersAuth
  ∧ RequiresAuth usersAuth = true
  ∧ http.ReqHeader (getUsers {[ "Authorization" := [""; "Bearer token"] ]})
      !! "Authorization" = Some [""; "Bearer token"]
  ∧ dispatch sampleMarshal map_to_list [usersAuth]
      (getUsers {[ "Authorization" := [""; "Bearer token"] ]})
    = unauthorizedOutcome
  ∧ dispatch sampleMarshal map_to_list [usersAuth]
      (getUsers {[ "Authorization" := ["Bearer token"] ]})
    ≠ unauthorizedOutcome.
Proof.
  repeat split; try reflexivity.
  intros H. apply (f_equal http.wCode) in H. vm_compute in H. discriminate.
Qed.

(** The header's content does not matter: two requests for the same method
    and path that both carry a non-empty value get the same outcome. *)
Lemma auth_value_irrelevant Marshal rangeOrder rs r1 r2 route :
  http.ReqMethod r1 = http.ReqMethod r2 →
  http.URLPath r1 = http.URLPath r2 →
  findRoute (NewMockHandler rs) (http.ReqMethod r1) (http.URLPath r1) = Some route →
  http.Get (http.ReqHeader r1) (AuthHeader route) ≠ "" →
  http.Get (http.ReqHeader r2) (AuthHeader route) ≠ "" →
  dispatch Marshal rangeOrder rs r1 = dispatch Marshal rangeOrder rs r2.
Proof.
  intros Hm Hp Hfind H1 H2.
  rewrite (dispatch_unfold _ _ _ r1 _ Hfind).
  rewrite Hm, Hp in Hfind. rewrite (dispatch_unfold _ _ _ r2 _ Hfind).
  unfold authFails. apply String.eqb_neq in H1, H2. rewrite H1, H2.
  now rewrite !andb_false_r.
Qed.

(** C4, as the code has it: the 401 outcome is the one [http.Error] writes.
    It carries the fixed plain-text message and a line feed as its body,
    the two headers [http.Error] sets, and nothing of the route's
    configured response. *)
Theorem unauthorized_outcome Marshal rangeOrder rs r route :
  findRoute (NewMockHandler rs) (http.ReqMethod r) (http.URLPath r) = Some route →
  RequiresAuth route = true →
  http.Get (http.ReqHeader r) (AuthHeader route) = "" →
  dispatch Marshal rangeOrder rs r
  = {| http.wHeader :=
         <["X-Content-Type-Options" := ["nosniff"]]>
           (<["Content-Type" := ["text/plain; charset=utf-8"]]> ∅);
       http.wCode := Some 401;
       http.wBody := "Unauthorized: missing auth header" +:+ LF;
       http.wEarly := [];
       http.wPanic := None |}.
Proof.
  intros Hfind Hauth Hget.
  rewrite (dispatch_unfold _ _ _ _ _ Hfind). unfold authFails.
  rewrite Hauth, Hget. reflexivity.
Qed.

(** The theorem at the sample table, for a request without headers. *)
Lemma unauthorized_outcome_witness :
  dispatch sampleMarshal map_to_list [usersById; usersAuth] (getUsers ∅)
  = {| http.wHeader :=
         <["X-Content-Type-Options" := ["nosniff"]]>
           (<["Content-Type" := ["text/plain; charset=utf-8"]]> ∅);
       http.wCode := Some 401;
       http.wBody := "Unauthorized: missing auth header" +:+ LF;
       http.wEarly := [];
       http.wPanic := None |}.
Proof.
  exact (unauthorized_outcome sampleMarshal map_to_list [usersById; usersAuth]
           (getUsers ∅) usersAuth eq_refl eq_refl eq_refl).
Defined.

(** C4, as stated, fails: the 401 outcome has a body. *)
Lemma unauthorized_has_body :
  findRoute (NewMockHandler [usersAuth]) "GET" "/api/users" = Some usersAuth
  ∧ RequiresAuth usersAuth = true
  ∧ http.Get ∅ (AuthHeader usersAuth) = ""
  ∧ http.wCode (dispatch sampleMarshal map_to_list [usersAuth] (getUsers ∅))
    = Some 401
  ∧ http.wBody (dispatch sampleMarshal map_to_list [usersAuth] (getUsers ∅))
    = "Unauthorized: missing auth header" +:+ LF
  ∧ http.wBody (dispatch sampleMarshal map_to_list [usersAuth] (getUsers ∅)) ≠ "".
Proof. repeat split; try reflexivity. discriminate. Qed.

(** ** Response emission *)

Lemma validCode_range (code : Z) : http.validCode code = true ↔ 100 ≤ code ≤ 999.
Proof. unfold http.validCode. rewrite andb_true_iff, !Z.leb_le. tauto. Qed.

Lemma finalCode_range (code : Z) :
  finalCode code = true ↔ code = 101 ∨ 200 ≤ code ≤ 999.
Proof.
  unfold finalCode, http.validCode, http.informational.
  destruct (Z.leb_spec 100 code), (Z.leb_spec code 999), (Z.leb_spec code 199),
    (Z.eqb_spec code 101); cbn; split; intros Hx; try discriminate;
    try reflexivity; lia.
Qed.

Lemma wBody_configured Marshal rangeOrder route :
  http.validCode (Status (Response_ route)) = true →
  http.wBody (configuredOutcome Marshal rangeOrder route) = bodyBytes Marshal route.
Proof.
  intros Hv. unfold configuredOutcome. rewrite Hv. cbn [negb].
  now destruct (http.informational (Status (Response_ route))).
Qed.

Lemma wHeader_configured Marshal rangeOrder route :
  http.wHeader (configuredOutcome Marshal rangeOrder route)
  = <["Content-Type" := ["application/json"]]> (configuredHeaders rangeOrder route).
Proof.
  unfold configuredOutcome.
  now destruct (http.validCode (Status (Response_ route))),
    (http.informational (Status (Response_ route))).
Qed.

Lemma wHeader_respond Marshal rangeOrder route :
  http.wHeader (respond Marshal rangeOrder route http.newWriter)
    !! "Content-Type" = Some ["application/json"].
Proof. rewrite respond_fresh, wHeader_configured. apply lookup_insert_eq. Qed.

(** C5, as the code has it: on a matched, authorized route whose status
    [WriteHeader] accepts, the body written is empty when the configured
    body is nil, and the marshalled value and a line feed otherwise
    (nothing when marshalling fails); a [body] key that is absent and one
    that holds JSON null both decode to nil. *)
Theorem body_written_unless_nil Marshal rangeOrder rs r route :
  findRoute (NewMockHandler rs) (http.ReqMethod r) (http.URLPath r) = Some route →
  authFails route r = false →
  100 ≤ Status (Response_ route) ≤ 999 →
  http.wBody (dispatch Marshal rangeOrder rs r) =
    match Body (Response_ route) with
    | Nil => ""
    | v => match Marshal v with
           | Some b => b +:+ LF
           | None => ""
           end
    end
  ∧ http.wPanic (dispatch Marshal rangeOrder rs r) = None
  ∧ unmarshalBody (Some Nil) = Nil
  ∧ unmarshalBody None = Nil.
Proof.
  intros Hfind Hauth Hs. apply validCode_range in Hs.
  rewrite dispatch_outcome, Hfind, Hauth.
  split; [now apply wBody_configured|]. split; [|split; reflexivity].
  unfold configuredOutcome. rewrite Hs. cbn [negb].
  now destruct (http.informational (Status (Response_ route))).
Qed.

(** The theorem at the sample table, for a request that carries the header. *)
Lemma body_written_unless_nil_witness :
  http.wBody (dispatch sampleMarshal map_to_list [usersAuth]
                (getUsers {[ "Authorization" := ["Bearer token"] ]})) =
    match Body (Response_ usersAuth) with
    | Nil => ""
    | v => match sampleMarshal v with
           | Some b => b +:+ LF
           | None => ""
           end
    end
  ∧ http.wPanic (dispatch sampleMarshal map_to_list [usersAuth]
                   (getUsers {[ "Authorization" := ["Bearer token"] ]})) = None
  ∧ unmarshalBody (Some Nil) = Nil
  ∧ unmarshalBody None = Nil.
Proof.
  assert (Ha : authFails usersAuth
                 (getUsers {[ "Authorization" := ["Bearer token"] ]}) = false)
    by reflexivity.
  apply (body_written_unless_nil sampleMarshal map_to_list [usersAuth]
           (getUsers {[ "Authorization" := ["Bearer token"] ]}) usersAuth
           eq_refl Ha).
  cbn. lia.
Defined.

(** C5, as stated, fails: a route configured with an explicit JSON null
    body writes no payload, although null marshals to the text [null]; its
    outcome is the outcome of the route whose body key is absent. *)
Lemma null_body_not_written :
  sampleMarshal Nil = Some "null"
  ∧ Body (Response_ bodyNull) = unmarshalBody (Some Nil)
  ∧ http.wBody (dispatch sampleMarshal map_to_list [bodyNull]
                  (http.mkRequest "GET" "/api/status" "" ∅)) = ""
  ∧ dispatch sampleMarshal map_to_list [bodyNull]
      (http.mkRequest "GET" "/api/status" "" ∅)
    = dispatch sampleMarshal map_to_list [bodyAbsent]
        (http.mkRequest "GET" "/api/status" "" ∅).
Proof. repeat split; reflexivity. Qed.

(** A status the configuration leaves out passes validation, and the
    handler panics on it before the body is written. *)
Example status_zero_panics :
  validateConfig (mkConfig (mkServer 3000) [statusZero]) = None
  ∧ dispatch sampleMarshal map_to_list [statusZero]
      (http.mkRequest "GET" "/api/zero" "" ∅)
    = {| http.wHeader := {[ "Content-Type" := ["application/json"] ]};
         http.wCode := None; http.wBody := "";
         http.wEarly := []; http.wPanic := Some 0 |}.
Proof. split; reflexivity. Qed.

(** An informational status is sent ahead, and the body goes out under the
    implicit status 200. *)
Example status_103_then_200 :
  dispatch sampleMarshal map_to_list [statusEarly]
    (http.mkRequest "GET" "/api/early" "" ∅)
  = {| http.wHeader := {[ "Content-Type" := ["application/json"] ]};
       http.wCode := Some 200; http.wBody := "true" +:+ LF;
       http.wEarly := [103]; http.wPanic := None |}.
Proof. reflexivity. Qed.

(** C7: on a matched, authorized route the response's Content-Type header
    is application/json, whatever the route's configured headers hold and
    in whatever order they were set. *)
Theorem content_type_forced Marshal rangeOrder rs r route :
  findRoute (NewMockHandler rs) (http.ReqMethod r) (http.URLPath r) = Some route →
  authFails route r = false →
  http.wHeader (dispatch Marshal rangeOrder rs r) !! "Content-Type"
  = Some ["application/json"]
  ∧ http.Get (http.wHeader (dispatch Marshal rangeOrder rs r)) "Content-Type"
    = "application/json".
Proof.
  intros Hfind Hauth. rewrite (dispatch_unfold _ _ _ _ _ Hfind), Hauth.
  pose proof (wHeader_respond Marshal rangeOrder route) as H.
  split; [exact H|]. unfold http.Get.
  change (textproto.CanonicalMIMEHeaderKey "Content-Type") with "Content-Type".
  now rewrite H.
Qed.

(** The theorem at a route that configures [content-type: text/plain]. *)
Lemma content_type_forced_witness :
  http.wHeader
    (dispatch sampleMarshal map_to_list [settingsText]
       (http.mkRequest "PATCH" "/api/settings" "" {[ "X-Api-Key" := ["mykey"] ]}))
    !! "Content-Type" = Some ["application/json"]
  ∧ http.Get
      (http.wHeader
         (dispatch sampleMarshal map_to_list [settingsText]
            (http.mkRequest "PATCH" "/api/settings" "" {[ "X-Api-Key" := ["mykey"] ]})))
      "Content-Type" = "application/json".
Proof.
  exact (content_type_forced sampleMarshal map_to_list [settingsText]
           (http.mkRequest "PATCH" "/api/settings" "" {[ "X-Api-Key" := ["mykey"] ]})
           settingsText eq_refl eq_refl).
Defined.

(** C8: whatever the route table, the mux of [main] answers a request for
    [/_health] with the health check handler: status 200, the JSON content
    type and the fixed payload; a configured route for that path is not
    consulted. *)
Theorem health_reserved :
  (∀ Marshal rangeOrder rs method query hdr,
     serve Marshal rangeOrder rs (http.mkRequest method "/_health" query hdr)
     = {| http.wHeader := {[ "Content-Type" := ["application/json"] ]};
          http.wCode := Some 200;
          http.wBody := healthPayload;
          http.wEarly := [];
          http.wPanic := None |})
  ∧ http.wCode
      (serve sampleMarshal map_to_list [healthOverride]
         (http.mkRequest "GET" "/_health" "" ∅)) = Some 200
  ∧ http.wCode
      (dispatch sampleMarshal map_to_list [healthOverride]
         (http.mkRequest "GET" "/_health" "" ∅)) = Some 503.
Proof.
  split; [|split; reflexivity].
  intros Marshal rangeOrder rs method query hdr.
  unfold serve, http.ServeMux_ServeHTTP.
  cbn [http.ReqMethod http.URLPath].
  destruct (String.eqb method "CONNECT"); reflexivity.
Qed.

(** ** The order of the header loop *)

Lemma setHeaders_lookup_notin (kvs : list (string * string))
    (h : gmap string (list string)) (k : string) :
  k ∉ canonicalKey <$> kvs →
  fold_left (λ h kv, http.Set_ h kv.1 kv.2) kvs h !! k = h !! k.
Proof.
  revert h. induction kvs as [|kv kvs IH]; intros h Hk; simpl; [reflexivity|].
  rewrite fmap_cons, not_elem_of_cons in Hk. destruct Hk as [Hne Hk].
  rewrite (IH _ Hk). unfold http.Set_. apply lookup_insert_ne.
  intros Heq. apply Hne. now rewrite <- Heq.
Qed.

Lemma setHeaders_lookup_in (kvs : list (string * string))
    (h : gmap string (list string)) (kv : string * string) :
  NoDup (canonicalKey <$> kvs) → kv ∈ kvs →
  fold_left (λ h kv, http.Set_ h kv.1 kv.2) kvs h !! canonicalKey kv = Some [kv.2].
Proof.
  revert h. induction kvs as [|kv' kvs IH]; intros h Hnd Hin.
  - now apply elem_of_nil in Hin.
  - rewrite fmap_cons in Hnd. apply NoDup_cons in Hnd as [Hnotin Hnd].
    simpl. apply elem_of_cons in Hin as [-> | Hin].
    + rewrite (setHeaders_lookup_notin _ _ _ Hnotin).
      unfold http.Set_, canonicalKey. apply lookup_insert_eq.
    + now apply IH.
Qed.

Lemma setHeaders_permutation (l1 l2 : list (string * string))
    (h : gmap string (list string)) :
  NoDup (canonicalKey <$> l1) → l1 ≡ₚ l2 →
  fold_left (λ h kv, http.Set_ h kv.1 kv.2) l1 h
  = fold_left (λ h kv, http.Set_ h kv.1 kv.2) l2 h.
Proof.
  intros Hnd Hperm. apply map_eq. intros k.
  assert (Hnd2 : NoDup (canonicalKey <$> l2)).
  { now rewrite <- Hperm. }
  destruct (decide (k ∈ canonicalKey <$> l1)) as [Hin | Hnotin].
  - apply list_elem_of_fmap in Hin as (kv & -> & Hin).
    rewrite (setHeaders_lookup_in l1 h kv Hnd Hin).
    symmetry. apply setHeaders_lookup_in; [exact Hnd2 | now rewrite <- Hperm].
  - rewrite (setHeaders_lookup_notin l1 h k Hnotin).
    symmetry. apply setHeaders_lookup_notin. now rewrite <- Hperm.
Qed.

Lemma respond_range_independent Marshal order1 order2 route w :
  rangeOK order1 → rangeOK order2 → headersDistinct route →
  respond Marshal order1 route w = respond Marshal order2 route w.
Proof.
  intros H1 H2 Hd. unfold respond, headersDistinct in *.
  destruct (Headers (Response_ route)) as [hs|]; [|reflexivity].
  set (f := λ (w : http.ResponseWriter) (kv : string * string),
              http.HeaderSet w kv.1 kv.2).
  assert (Heq : fold_left f (order1 hs) w = fold_left f (order2 hs) w).
  { subst f. destruct (http.running w) eqn:Hw.
    - rewrite !setHeaders_running by exact Hw. f_equal.
      apply setHeaders_permutation.
      + now rewrite (H1 hs).
      + now rewrite (H1 hs), (H2 hs).
    - now rewrite !setHeaders_stopped. }
  now rewrite Heq.
Qed.

(** Outside the header loop nothing depends on the range order: with
    header names that stay distinct after canonicalization, [dispatch] gives
    one outcome for every admissible order. *)
Lemma dispatch_range_independent Marshal order1 order2 rs r :
  rangeOK order1 → rangeOK order2 → Forall headersDistinct rs →
  dispatch Marshal order1 rs r = dispatch Marshal order2 rs r.
Proof.
  intros H1 H2 Hd.
  destruct (findRoute (NewMockHandler rs) (http.ReqMethod r) (http.URLPath r))
    as [route|] eqn:Hfind.
  - rewrite !(dispatch_unfold _ _ _ _ _ Hfind).
    destruct (authFails route r); [reflexivity|].
    apply respond_range_independent; [exact H1 | exact H2 |].
    apply findRouteIn_Some in Hfind as (before & after & Heq & _).
    simpl in Heq. subst rs. apply Forall_app in Hd as [_ Hd].
    now inversion Hd.
  - now rewrite !(dispatch_NotFound _ _ _ _ Hfind).
Qed.

Lemma rangeOK_map_to_list : rangeOK map_to_list.
Proof. intros m. reflexivity. Qed.

Lemma rangeOK_reversed : rangeOK reversed.
Proof. intros m. unfold reversed. apply reverse_Permutation. Qed.

(** C9 at its failing input: a route whose configured header names [x-a]
    and [X-A] are distinct map keys with one canonical form.  Two
    admissible range orders give two different header maps for the same
    route table and the same request. *)
Theorem dispatch_depends_on_range_order :
  rangeOK map_to_list
  ∧ rangeOK reversed
  ∧ ¬ headersDistinct collidingHeaders
  ∧ ∀ Marshal,
      dispatch Marshal map_to_list [collidingHeaders]
        (http.mkRequest "GET" "/api/ping" "" ∅)
      ≠ dispatch Marshal reversed [collidingHeaders]
          (http.mkRequest "GET" "/api/ping" "" ∅).
Proof.
  split; [apply rangeOK_map_to_list|]. split; [apply rangeOK_reversed|]. split.
  - unfold headersDistinct. simpl. intros Hnd.
    assert (Hl : canonicalKey <$> map_to_list
                   ({[ "x-a" := "1"; "X-A" := "2" ]} : gmap string string)
                 = ["X-A"; "X-A"]) by (vm_compute; reflexivity).
    rewrite Hl in Hnd. apply NoDup_cons in Hnd as [Hn _]. apply Hn. left.
  - intros Marshal Heq.
    apply (f_equal (λ w, http.wHeader w !! "X-A")) in Heq.
    vm_compute in Heq. discriminate.
Qed.

(** ** Validation *)

Lemma validMethods_allowed (m : string) :
  default false (validMethods !! m) = true ↔ methodAllowed m.
Proof.
  unfold validMethods, methodAllowed.
  rewrite !elem_of_cons, elem_of_nil.
  rewrite !lookup_insert, lookup_singleton.
  repeat case_decide; subst; simpl;
    try (split; [intros _; tauto | reflexivity]).
  split; [discriminate | intuition congruence].
Qed.

Lemma validateRoutes_cons (i : nat) (route : Route) (rest : list Route) :
  validateRoutes i (route :: rest) =
    match checkRoute i route with
    | Some e => Some e
    | None => validateRoutes (S i) rest
    end.
Proof.
  simpl. unfold checkRoute.
  destruct (String.eqb (Path route) ""); [reflexivity|].
  destruct (negb _); [reflexivity|]. now destruct (_ && _).
Qed.

Lemma checkRoute_None (i : nat) (route : Route) :
  checkRoute i route = None ↔ routeValid route.
Proof.
  unfold checkRoute, routeValid.
  rewrite <- validMethods_allowed.
  destruct (String.eqb (Path route) "") eqn:Hp.
  - apply String.eqb_eq in Hp. split; [discriminate | tauto].
  - apply String.eqb_neq in Hp.
    destruct (default false (validMethods !! Method route)); simpl.
    + destruct (RequiresAuth route); simpl.
      * destruct (String.eqb (AuthHeader route) "") eqn:Ha.
        -- apply String.eqb_eq in Ha. split; [discriminate|].
           intros (_ & _ & H). now specialize (H eq_refl).
        -- apply String.eqb_neq in Ha. tauto.
      * split; [|reflexivity]. intros _. repeat split; [exact Hp | discriminate].
    + split; [discriminate|]. intros (_ & H & _). discriminate.
Qed.

Lemma checkRoute_Some (i : nat) (route : Route) (e : configError) :
  checkRoute i route = Some e ↔ routeFails i route e.
Proof.
  unfold checkRoute.
  pose proof (validMethods_allowed (Method route)) as Hm.
  destruct (String.eqb (Path route) "") eqn:Hp.
  - apply String.eqb_eq in Hp. split.
    + intros [= <-]. now split.
    + destruct e; simpl; try tauto. now intros [-> _].
  - apply String.eqb_neq in Hp.
    destruct (default false (validMethods !! Method route)) eqn:Hv; simpl.
    + assert (Hal : methodAllowed (Method route)) by now apply Hm.
      destruct (RequiresAuth route) eqn:Hr; simpl.
      * destruct (String.eqb (AuthHeader route) "") eqn:Ha.
        -- apply String.eqb_eq in Ha. split.
           ++ intros [= <-]. simpl. tauto.
           ++ destruct e; simpl; try tauto.
              ** intros (_ & _ & -> & Hn). tauto.
              ** now intros [-> _].
        -- apply String.eqb_neq in Ha. split; [discriminate|].
           destruct e; simpl; try tauto.
           intros (_ & _ & -> & Hn). tauto.
      * split; [discriminate|].
        destruct e; simpl; try tauto.
        -- intros (_ & _ & -> & Hn). tauto.
        -- intros (_ & _ & _ & H & _). congruence.
    + assert (Hal : ¬ methodAllowed (Method route)).
      { intros H. apply Hm in H. discriminate. }
      split.
      * intros [= <-]. simpl. tauto.
      * destruct e; simpl; try tauto. now intros (-> & _ & -> & _).
Qed.

Lemma validateRoutes_None (i : nat) (rs : list Route) :
  validateRoutes i rs = None ↔ Forall routeValid rs.
Proof.
  revert i. induction rs as [|route rest IH]; intros i.
  - split; [constructor | reflexivity].
  - rewrite validateRoutes_cons.
    destruct (checkRoute i route) as [e|] eqn:Hc.
    + split; [discriminate|]. intros H. inversion H as [|? ? Hv _]; subst.
      apply (checkRoute_None i) in Hv. congruence.
    + apply checkRoute_None in Hc. rewrite IH. split.
      * now constructor.
      * now inversion 1.
Qed.

Lemma validateRoutes_Some (i : nat) (rs : list Route) (e : configError) :
  validateRoutes i rs = Some e ↔
  ∃ k route,
    rs !! k = Some route
    ∧ Forall routeValid (take k rs)
    ∧ routeFails (i + k) route e.
Proof.
  revert i. induction rs as [|r rest IH]; intros i.
  - split; [discriminate|]. now intros (k & route & H & _).
  - rewrite validateRoutes_cons.
    destruct (checkRoute i r) as [e'|] eqn:Hc.
    + split.
      * intros [= ->]. exists 0%nat, r. rewrite Nat.add_0_r.
        repeat split; [constructor | now apply checkRoute_Some].
      * intros (k & route & Hk & Hv & Hf). destruct k as [|k].
        -- injection Hk as <-. rewrite Nat.add_0_r in Hf.
           apply checkRoute_Some in Hf. congruence.
        -- simpl in Hv. inversion Hv as [|? ? Hr _]; subst.
           apply (checkRoute_None i) in Hr. congruence.
    + rewrite IH. split.
      * intros (k & route & Hk & Hv & Hf). exists (S k), route.
        rewrite Nat.add_succ_r. repeat split; [exact Hk | | exact Hf].
        simpl. constructor; [now apply (checkRoute_None i) | exact Hv].
      * intros (k & route & Hk & Hv & Hf). destruct k as [|k].
        -- injection Hk as <-. rewrite Nat.add_0_r in Hf.
           apply checkRoute_Some in Hf. congruence.
        -- exists k, route. rewrite Nat.add_succ_r in Hf.
           repeat split; [exact Hk | now inversion Hv | exact Hf].
Qed.

Lemma validateConfig_None (config : Config) :
  validateConfig config = None ↔
  1 ≤ Port (Server config) ≤ 65535 ∧ Forall routeValid (Routes config).
Proof.
  unfold validateConfig.
  destruct (Z.leb_spec (Port (Server config)) 0);
    destruct (Z.ltb_spec 65535 (Port (Server config))); simpl;
    try (split; [discriminate | lia]).
  rewrite validateRoutes_None. split; [intros Hrs; split; [lia | exact Hrs] | tauto].
Qed.

(** [validateConfig] reports an error exactly as follows: a port outside
    1..65535 is reported whatever the routes are; otherwise the error is
    that of the first route that fails a check, with its index, every route
    before it being valid, and within that route the path is checked
    first, the method second and the authorization header last. *)
Theorem validateConfig_reports (config : Config) (e : configError) :
  validateConfig config = Some e ↔ configFails config e.
Proof.
  unfold validateConfig, configFails.
  destruct (Z.leb_spec (Port (Server config)) 0);
    destruct (Z.ltb_spec 65535 (Port (Server config))); simpl.
  1-3: split;
    [ intros [= <-]; split; [reflexivity | lia]
    | destruct e; try (intros [? _]; lia); intros [-> _]; reflexivity ].
  rewrite validateRoutes_Some. simpl.
  destruct e; try (split; [intros H'; split; [lia | exact H'] | tauto]).
  split.
  - now intros (k & route & _ & _ & Hf).
  - intros [-> Hp]. lia.
Qed.

(** [validateConfig] accepts a configuration exactly when the port lies in
    1..65535 and every route has a non-empty path, one of the six methods,
    and a non-empty authorization header name when it requires one. *)
Theorem validateConfig_accepts (config : Config) :
  validateConfig config = None ↔
  1 ≤ Port (Server config) ≤ 65535 ∧ Forall routeValid (Routes config).
Proof. apply validateConfig_None. Qed.

(** ** Loading and startup *)

Lemma LoadConfig_Ok ReadFile Unmarshal filename config :
  LoadConfig ReadFile Unmarshal filename = Ok config ↔
  ∃ data,
    ReadFile filename = Ok data
    ∧ Unmarshal data = Ok config
    ∧ validateConfig config = None.
Proof.
  unfold LoadConfig. destruct (ReadFile filename) as [data|e].
  - destruct (Unmarshal data) as [config'|e] eqn:Hu.
    + destruct (validateConfig config') as [e|] eqn:Hv.
      * split; [discriminate|]. intros (d & [= <-] & Hd & Hc). congruence.
      * split.
        -- intros [= <-]. now exists data.
        -- intros (d & [= <-] & Hd & _). congruence.
    + split; [discriminate|]. intros (d & [= <-] & Hd & _). congruence.
  - split; [discriminate|]. now intros (d & Hd & _).
Qed.

(** [LoadConfig] returns a configuration exactly when the file was read,
    its content was decoded and the decoded configuration passes
    [validateConfig]; the configuration returned is the decoded one, whose
    port then lies in 1..65535 and whose routes are all valid. *)
Theorem LoadConfig_returns_valid ReadFile Unmarshal filename config :
  LoadConfig ReadFile Unmarshal filename = Ok config ↔
  ∃ data,
    ReadFile filename = Ok data
    ∧ Unmarshal data = Ok config
    ∧ 1 ≤ Port (Server config) ≤ 65535
    ∧ Forall routeValid (Routes config).
Proof.
  rewrite LoadConfig_Ok. split; intros (data & Hr & Hu & Hv); exists data.
  - apply validateConfig_None in Hv. tauto.
  - repeat split; [exact Hr | exact Hu |]. now apply validateConfig_None.
Qed.

(** Each failure of [LoadConfig] names its stage: the message starts with
    the read prefix when the file cannot be read, with the parse prefix
    when its content cannot be decoded, and with the validation prefix
    followed by the validation error's text otherwise. *)
Theorem LoadConfig_error_stage ReadFile Unmarshal filename msg :
  LoadConfig ReadFile Unmarshal filename = Err msg ↔
  (∃ e, ReadFile filename = Err e
        ∧ msg = "failed to read config file: " +:+ e)
  ∨ (∃ data e, ReadFile filename = Ok data ∧ Unmarshal data = Err e
               ∧ msg = "failed to parse config file: " +:+ e)
  ∨ (∃ data config e,
       ReadFile filename = Ok data ∧ Unmarshal data = Ok config
       ∧ validateConfig config = Some e
       ∧ msg = "invalid config: " +:+ errorText e).
Proof.
  unfold LoadConfig. destruct (ReadFile filename) as [data|e].
  - destruct (Unmarshal data) as [config|e] eqn:Hu.
    + destruct (validateConfig config) as [e|] eqn:Hv.
      * split.
        -- intros [= <-]. right; right. now exists data, config, e.
        -- intros [(e' & [=] & _) | [(d & e' & [= <-] & He & _)
                   | (d & c & e' & [= <-] & Hc & He & ->)]]; [congruence|].
           congruence.
      * split; [discriminate|].
        intros [(e' & [=] & _) | [(d & e' & [= <-] & He & _)
               | (d & c & e' & [= <-] & Hc & He & _)]]; congruence.
    + split.
      * intros [= <-]. right; left. now exists data, e.
      * intros [(e' & [=] & _) | [(d & e' & [= <-] & He & ->)
               | (d & c & e' & [= <-] & Hc & _)]]; congruence.
  - split.
    + intros [= <-]. left. now exists e.
    + intros [(e' & [= <-] & ->) | [(d & e' & [=] & _)
             | (d & c & e' & [=] & _)]]. reflexivity.
Qed.

(** ** Requests no route answers *)

Lemma NotFound_fresh (r : http.Request) :
  http.NotFound http.newWriter r = notFoundOutcome.
Proof. reflexivity. Qed.

Lemma dispatch_no_match Marshal rangeOrder rs r :
  Forall (λ route, routeMatches (http.ReqMethod r) (http.URLPath r) route = false) rs →
  dispatch Marshal rangeOrder rs r = notFoundOutcome.
Proof.
  intros H. rewrite dispatch_NotFound; [apply NotFound_fresh|].
  now apply findRouteIn_None.
Qed.

(** A request that no route matches by method and path gets the 404 of
    [http.NotFound]: status 404, the plain-text content type, the nosniff
    header and the fixed body, whatever the request's headers and the
    routes' configured responses are.  This includes every request to an
    empty route table. *)
Theorem unmatched_request_404 Marshal rangeOrder rs r :
  Forall (λ route, routeMatches (http.ReqMethod r) (http.URLPath r) route = false) rs →
  dispatch Marshal rangeOrder rs r = notFoundOutcome
  ∧ dispatch Marshal rangeOrder [] r = notFoundOutcome.
Proof.
  intros H. split; apply dispatch_no_match; [exact H | constructor].
Qed.

(** The theorem at the sample table, for a path no route has. *)
Lemma unmatched_request_404_witness :
  dispatch sampleMarshal map_to_list [usersAuth; productById]
    (http.mkRequest "GET" "/api/orders" "" ∅) = notFoundOutcome
  ∧ dispatch sampleMarshal map_to_list []
      (http.mkRequest "GET" "/api/orders" "" ∅) = notFoundOutcome.
Proof.
  apply (unmatched_request_404 sampleMarshal map_to_list [usersAuth; productById]
           (http.mkRequest "GET" "/api/orders" "" ∅)).
  constructor; [reflexivity|]. constructor; [reflexivity | constructor].
Defined.

(** ** The mux of main *)
















(** The path [/_health/] is not the reserved path: it reaches the mock
    handler, and a route configured for it answers. *)
Example health_with_slash_is_a_route :
  http.wCode
    (serve sampleMarshal map_to_list
       [mkRoute "/_health/" "GET" false "" (plain 503 (Bool false))]
       (http.mkRequest "GET" "/_health/" "" ∅)) = Some 503.
Proof. reflexivity. Qed.

(** A path that cleans to the reserved path is redirected to it. *)
Example health_doubled_slash :
  http.wHeader
    (serve sampleMarshal map_to_list [] (http.mkRequest "HEAD" "//_health" "" ∅))
  = {[ "Content-Type" := ["text/html; charset=utf-8"];
       "Location" := ["/_health"] ]}.
Proof. reflexivity. Qed.

Example cleanPath_samples :
  http.cleanPath "" = "/"
  ∧ http.cleanPath "api/products" = "/api/products"
  ∧ http.cleanPath "/api//products/" = "/api/products/"
  ∧ http.cleanPath "/api/./a/../products" = "/api/products"
  ∧ http.cleanPath "/../.." = "/"
  ∧ http.cleanPath "/api/products/" = "/api/products/".
Proof. repeat split; reflexivity. Qed.

(** ** A started server *)




(** ** More on path matching *)

Lemma Forall2_accepts_refl (parts : list string) :
  Forall2 segmentAccepts parts parts.
Proof. induction parts; constructor; [now right | assumption]. Qed.

Lemma pathMatches_accepts (pattern path : string) :
  strings.Contains pattern "{" = true →
  pathMatches pattern path = true ↔
  Forall2 segmentAccepts (segments pattern) (segments path).
Proof.
  intros Hc. rewrite pathMatches_unfold, Hc. simpl. split.
  - intros H. apply orb_true_iff in H as [H | H].
    + apply String.eqb_eq in H. subst path. apply Forall2_accepts_refl.
    + apply andb_true_iff in H as [Hlen Hm]. apply Nat.eqb_eq in Hlen.
      now apply segmentsMatch_Forall2.
  - intros HF. apply orb_true_iff. right.
    pose proof (Forall2_length _ _ _ HF) as Hlen.
    apply andb_true_iff. split; [now apply Nat.eqb_eq|].
    now apply segmentsMatch_Forall2.
Qed.

(** A pattern without an opening brace matches exactly one path: itself,
    byte for byte.  No trimming or splitting is applied to it. *)
Theorem static_pattern_exact (pattern path : string) :
  strings.Contains pattern "{" = false →
  pathMatches pattern path = true ↔ pattern = path.
Proof.
  intros Hc. rewrite (pathMatches_static _ _ Hc). apply String.eqb_eq.
Qed.

(** The theorem at a literal pattern and the same path in another case. *)
Lemma static_pattern_exact_witness :
  pathMatches "/api/products" "/api/Products" = true
  ↔ "/api/products" = "/api/Products".
Proof.
  exact (static_pattern_exact "/api/products" "/api/Products" eq_refl).
Defined.

(** The value at a parameter position never matters: when a pattern with
    an opening brace matches a path, it matches every path with as many
    segments that agrees with it at the positions where the pattern's
    segment is not a parameter. *)
Theorem param_values_do_not_matter (pattern path1 path2 : string) :
  strings.Contains pattern "{" = true →
  pathMatches pattern path1 = true →
  length (segments path2) = length (segments path1) →
  (∀ i patternPart,
     segments pattern !! i = Some patternPart →
     isParam patternPart = false →
     segments path2 !! i = segments path1 !! i) →
  pathMatches pattern path2 = true.
Proof.
  intros Hc Hm Hlen Hagree.
  apply (pathMatches_accepts _ _ Hc) in Hm.
  apply (pathMatches_accepts _ _ Hc).
  apply Forall2_same_length_lookup in Hm as [Hl Hm].
  apply Forall2_same_length_lookup. split; [congruence|].
  intros i pp ps Hpp Hps.
  destruct (isParam pp) eqn:Hpar; [now left|].
  rewrite (Hagree i pp Hpp Hpar) in Hps.
  destruct (Hm i pp ps Hpp Hps) as [H | H]; [congruence | now right].
Qed.

(** The theorem at the two-parameter pattern of the sample configuration. *)
Lemma param_values_do_not_matter_witness :
  pathMatches "/api/orders/{orderId}/items/{itemId}"
    "/api/orders/ANY/items/ANY" = true.
Proof.
  apply (param_values_do_not_matter "/api/orders/{orderId}/items/{itemId}"
           "/api/orders/12345/items/67890" "/api/orders/ANY/items/ANY");
    try reflexivity.
  intros i pp Hi Hp.
  change (segments "/api/orders/{orderId}/items/{itemId}")
    with ["api"; "orders"; "{orderId}"; "items"; "{itemId}"] in Hi.
  do 5 (destruct i as [|i];
        [injection Hi as <-; first [discriminate Hp | reflexivity]|]).
  discriminate Hi.
Defined.

(** ** The configured response *)

Lemma invalid_range (code : Z) :
  http.validCode code = false ↔ code < 100 ∨ 999 < code.
Proof.
  unfold http.validCode.
  destruct (Z.leb_spec 100 code), (Z.leb_spec code 999); cbn; split;
    intros Hx; try discriminate; try reflexivity; lia.
Qed.

Lemma informational_range (code : Z) :
  http.informational code = true ↔ 100 ≤ code ≤ 199 ∧ code ≠ 101.
Proof.
  unfold http.informational.
  destruct (Z.leb_spec 100 code), (Z.leb_spec code 199), (Z.eqb_spec code 101);
    cbn; split; intros Hx; try discriminate; try reflexivity; lia.
Qed.

Lemma configured_invalid Marshal rangeOrder route :
  http.validCode (Status (Response_ route)) = false →
  configuredOutcome Marshal rangeOrder route
  = {| http.wHeader :=
         <["Content-Type" := ["application/json"]]>
           (configuredHeaders rangeOrder route);
       http.wCode := None; http.wBody := ""; http.wEarly := [];
       http.wPanic := Some (Status (Response_ route)) |}.
Proof. intros Hv. unfold configuredOutcome. now rewrite Hv. Qed.

Lemma configured_informational Marshal rangeOrder route :
  http.informational (Status (Response_ route)) = true →
  configuredOutcome Marshal rangeOrder route
  = {| http.wHeader :=
         <["Content-Type" := ["application/json"]]>
           (configuredHeaders rangeOrder route);
       http.wCode :=
         if String.eqb (bodyBytes Marshal route) "" then None else Some 200;
       http.wBody := bodyBytes Marshal route;
       http.wEarly := [Status (Response_ route)];
       http.wPanic := None |}.
Proof.
  intros Hi. unfold configuredOutcome. rewrite Hi.
  assert (Hv : http.validCode (Status (Response_ route)) = true).
  { apply informational_range in Hi. apply validCode_range. lia. }
  now rewrite Hv.
Qed.

Lemma configured_final Marshal rangeOrder route :
  finalCode (Status (Response_ route)) = true →
  configuredOutcome Marshal rangeOrder route
  = {| http.wHeader :=
         <["Content-Type" := ["application/json"]]>
           (configuredHeaders rangeOrder route);
       http.wCode := Some (Status (Response_ route));
       http.wBody := bodyBytes Marshal route;
       http.wEarly := [];
       http.wPanic := None |}.
Proof.
  unfold finalCode. intros Hf. apply andb_true_iff in Hf as [Hv Hi].
  apply negb_true_iff in Hi. unfold configuredOutcome. now rewrite Hv, Hi.
Qed.

(** Status, body and panic of the configured response, by the class of
    the configured status code. *)
Lemma configured_by_class Marshal rangeOrder route :
  (Status (Response_ route) < 100 ∨ 999 < Status (Response_ route) →
   http.wPanic (configuredOutcome Marshal rangeOrder route)
     = Some (Status (Response_ route))
   ∧ http.wCode (configuredOutcome Marshal rangeOrder route) = None
   ∧ http.wEarly (configuredOutcome Marshal rangeOrder route) = []
   ∧ http.wBody (configuredOutcome Marshal rangeOrder route) = "")
  ∧ (100 ≤ Status (Response_ route) ≤ 199 ∧ Status (Response_ route) ≠ 101 →
     http.wPanic (configuredOutcome Marshal rangeOrder route) = None
     ∧ http.wEarly (configuredOutcome Marshal rangeOrder route)
       = [Status (Response_ route)]
     ∧ http.wBody (configuredOutcome Marshal rangeOrder route)
       = bodyBytes Marshal route
     ∧ http.wCode (configuredOutcome Marshal rangeOrder route)
       = if String.eqb (bodyBytes Marshal route) "" then None else Some 200)
  ∧ (Status (Response_ route) = 101 ∨ 200 ≤ Status (Response_ route) ≤ 999 →
     http.wPanic (configuredOutcome Marshal rangeOrder route) = None
     ∧ http.wEarly (configuredOutcome Marshal rangeOrder route) = []
     ∧ http.wBody (configuredOutcome Marshal rangeOrder route)
       = bodyBytes Marshal route
     ∧ http.wCode (configuredOutcome Marshal rangeOrder route)
       = Some (Status (Response_ route))).
Proof.
  split; [|split].
  - intros Hs. apply invalid_range in Hs.
    rewrite (configured_invalid _ _ _ Hs). now repeat split.
  - intros Hs. apply informational_range in Hs.
    rewrite (configured_informational _ _ _ Hs). now repeat split.
  - intros Hs. apply finalCode_range in Hs.
    rewrite (configured_final _ _ _ Hs). now repeat split.
Qed.

Lemma configuredHeaders_lookup_in rangeOrder route hs k v :
  rangeOK rangeOrder → headersDistinct route →
  Headers (Response_ route) = Some hs → hs !! k = Some v →
  configuredHeaders rangeOrder route !! textproto.CanonicalMIMEHeaderKey k
  = Some [v].
Proof.
  intros Hok Hd Hhs Hk. unfold configuredHeaders, headersDistinct in *.
  rewrite Hhs in *.
  assert (Hin : (k, v) ∈ rangeOrder hs).
  { rewrite (Hok hs). now apply elem_of_map_to_list. }
  apply (setHeaders_lookup_in (rangeOrder hs) ∅ (k, v)); [|exact Hin].
  now rewrite (Hok hs).
Qed.

Lemma configuredHeaders_lookup_notin rangeOrder route name :
  rangeOK rangeOrder →
  (∀ hs k, Headers (Response_ route) = Some hs → is_Some (hs !! k) →
           textproto.CanonicalMIMEHeaderKey k ≠ name) →
  configuredHeaders rangeOrder route !! name = None.
Proof.
  intros Hok Hnot. unfold configuredHeaders.
  destruct (Headers (Response_ route)) as [hs|]; [|apply lookup_empty].
  rewrite (setHeaders_lookup_notin (rangeOrder hs) ∅ name); [apply lookup_empty|].
  intros Hin. apply list_elem_of_fmap in Hin as ([k v] & -> & Hin).
  rewrite (Hok hs) in Hin. apply elem_of_map_to_list in Hin.
  apply (Hnot hs k eq_refl); [now exists v | reflexivity].
Qed.

(** On a matched, authorized route whose header names stay distinct after
    canonicalization, for every admissible order of the header loop: the
    header map holds every configured header under its canonical name
    (Content-Type apart, which is forced) and no header besides these and
    Content-Type; a configured status that [WriteHeader] takes as final
    (101, or 200 to 999) is the status of the response, as it is; a
    configured status outside 100..999 makes the handler panic, and then
    there is neither status nor body. *)
Theorem configured_response_emitted Marshal rangeOrder rs r route :
  rangeOK rangeOrder →
  headersDistinct route →
  findRoute (NewMockHandler rs) (http.ReqMethod r) (http.URLPath r) = Some route →
  authFails route r = false →
  (Status (Response_ route) = 101 ∨ 200 ≤ Status (Response_ route) ≤ 999 →
   http.wCode (dispatch Marshal rangeOrder rs r) = Some (Status (Response_ route))
   ∧ http.wPanic (dispatch Marshal rangeOrder rs r) = None)
  ∧ (Status (Response_ route) < 100 ∨ 999 < Status (Response_ route) →
     http.wPanic (dispatch Marshal rangeOrder rs r)
       = Some (Status (Response_ route))
     ∧ http.wCode (dispatch Marshal rangeOrder rs r) = None
     ∧ http.wBody (dispatch Marshal rangeOrder rs r) = "")
  ∧ (∀ hs k v,
       Headers (Response_ route) = Some hs → hs !! k = Some v →
       textproto.CanonicalMIMEHeaderKey k ≠ "Content-Type" →
       http.wHeader (dispatch Marshal rangeOrder rs r)
         !! textproto.CanonicalMIMEHeaderKey k = Some [v])
  ∧ (∀ name,
       name ≠ "Content-Type" →
       (∀ hs k, Headers (Response_ route) = Some hs → is_Some (hs !! k) →
                textproto.CanonicalMIMEHeaderKey k ≠ name) →
       http.wHeader (dispatch Marshal rangeOrder rs r) !! name = None).
Proof.
  intros Hok Hd Hfind Hauth.
  rewrite dispatch_outcome, Hfind, Hauth.
  destruct (configured_by_class Marshal rangeOrder route) as (Hbad & _ & Hfin).
  split; [|split; [|split]].
  - intros Hs. destruct (Hfin Hs) as (Hp & _ & _ & Hc). now split.
  - intros Hs. destruct (Hbad Hs) as (Hp & Hc & _ & Hb). now repeat split.
  - intros hs k v Hhs Hk Hne. rewrite wHeader_configured.
    rewrite lookup_insert_ne by congruence.
    now apply (configuredHeaders_lookup_in rangeOrder route hs k v).
  - intros name Hne Hnot. rewrite wHeader_configured.
    rewrite lookup_insert_ne by congruence.
    now apply configuredHeaders_lookup_notin.
Qed.

Lemma twoHeaders_list :
  map_to_list ({[ "x-first" := "1"; "X-Second" := "2" ]} : gmap string string)
  = [("x-first", "1"); ("X-Second", "2")].
Proof. vm_compute. reflexivity. Qed.

Lemma headersDistinct_twoHeaders : headersDistinct twoHeaders.
Proof.
  unfold headersDistinct. cbn [twoHeaders Response_ Headers].
  rewrite twoHeaders_list.
  change (canonicalKey <$> [("x-first", "1"); ("X-Second", "2")])
    with ["X-First"; "X-Second"].
  apply NoDup_cons. split; [|apply NoDup_singleton].
  rewrite list_elem_of_singleton. discriminate.
Qed.

(** The theorem at the sample route with two configured headers, visited
    in the backward order. *)
Lemma configured_response_emitted_witness :
  http.wCode
    (dispatch sampleMarshal reversed [twoHeaders]
       (http.mkRequest "GET" "/api/ping" "" ∅)) = Some 201
  ∧ http.wHeader
      (dispatch sampleMarshal reversed [twoHeaders]
         (http.mkRequest "GET" "/api/ping" "" ∅))
      !! "X-First" = Some ["1"]
  ∧ http.wHeader
      (dispatch sampleMarshal reversed [twoHeaders]
         (http.mkRequest "GET" "/api/ping" "" ∅))
      !! "X-Second" = Some ["2"]
  ∧ http.wHeader
      (dispatch sampleMarshal reversed [twoHeaders]
         (http.mkRequest "GET" "/api/ping" "" ∅))
      !! "X-Third" = None.
Proof.
  assert (Ha : authFails twoHeaders (http.mkRequest "GET" "/api/ping" "" ∅)
               = false) by reflexivity.
  destruct (configured_response_emitted sampleMarshal reversed [twoHeaders]
              (http.mkRequest "GET" "/api/ping" "" ∅) twoHeaders
              rangeOK_reversed headersDistinct_twoHeaders eq_refl Ha)
    as (Hcode & _ & Hin & Hnotin).
  split; [|split; [|split]].
  - apply Hcode. right. cbn. lia.
  - apply (Hin {[ "x-first" := "1"; "X-Second" := "2" ]} "x-first" "1" eq_refl);
      [reflexivity | discriminate].
  - apply (Hin {[ "x-first" := "1"; "X-Second" := "2" ]} "X-Second" "2" eq_refl);
      [reflexivity | discriminate].
  - apply Hnotin; [discriminate|].
    intros hs k [= <-] [v Hk].
    apply elem_of_map_to_list in Hk. rewrite twoHeaders_list in Hk.
    rewrite !elem_of_cons, elem_of_nil in Hk.
    destruct Hk as [[= -> ->] | [[= -> ->] | []]]; discriminate.
Defined.

(** With header names that stay distinct after canonicalization in every
    route, the outcome of a request is the same for every admissible order
    of the header loop. *)
Theorem outcome_independent_of_range_order Marshal order1 order2 rs r :
  rangeOK order1 → rangeOK order2 → Forall headersDistinct rs →
  dispatch Marshal order1 rs r = dispatch Marshal order2 rs r.
Proof. apply dispatch_range_independent. Qed.

(** The theorem at the sample route with two configured headers, for the
    two sample orders, which visit its headers in different orders. *)
Lemma outcome_independent_of_range_order_witness :
  map_to_list ({[ "x-first" := "1"; "X-Second" := "2" ]} : gmap string string)
  ≠ reversed {[ "x-first" := "1"; "X-Second" := "2" ]}
  ∧ dispatch sampleMarshal map_to_list [twoHeaders]
      (http.mkRequest "GET" "/api/ping" "" ∅)
    = dispatch sampleMarshal reversed [twoHeaders]
        (http.mkRequest "GET" "/api/ping" "" ∅).
Proof.
  split.
  - unfold reversed. rewrite twoHeaders_list. discriminate.
  - apply (outcome_independent_of_range_order sampleMarshal map_to_list reversed
             [twoHeaders] (http.mkRequest "GET" "/api/ping" "" ∅)
             rangeOK_map_to_list rangeOK_reversed).
    constructor; [apply headersDistinct_twoHeaders | constructor].
Defined.

(** ** The earlier handler and the current one *)

Lemma v1_findRouteIn_static (rs : list Route) (method path : string) :
  Forall (λ route, strings.Contains (Path route) "{" = false) rs →
  v1.findRouteIn rs method path = findRouteIn rs method path.
Proof.
  induction 1 as [|route rest Hs _ IH]; simpl; [reflexivity|].
  now rewrite (pathMatches_static _ _ Hs), IH.
Qed.

(** Path parameters are a conservative extension: on a route table in
    which no pattern holds an opening brace, the current handler and the
    earlier one, which compares paths for equality, record the same thing
    for every request. *)
Theorem handlers_agree_on_static_tables Marshal rangeOrder h w r :
  Forall (λ route, strings.Contains (Path route) "{" = false) (routes h) →
  ServeHTTP Marshal rangeOrder h w r = v1.ServeHTTP Marshal rangeOrder h w r.
Proof.
  intros Hs. unfold ServeHTTP, v1.ServeHTTP, findRoute, v1.findRoute.
  now rewrite (v1_findRouteIn_static _ _ _ Hs).
Qed.

(** The theorem at a table of two literal routes. *)
Lemma handlers_agree_on_static_tables_witness :
  ServeHTTP sampleMarshal map_to_list
    (NewMockHandler [usersAdmin; productsList]) http.newWriter
    (http.mkRequest "GET" "/api/products" "" ∅)
  = v1.ServeHTTP sampleMarshal map_to_list
      (NewMockHandler [usersAdmin; productsList]) http.newWriter
      (http.mkRequest "GET" "/api/products" "" ∅).
Proof.
  apply (handlers_agree_on_static_tables sampleMarshal map_to_list
           (NewMockHandler [usersAdmin; productsList])).
  constructor; [reflexivity|]. constructor; [reflexivity | constructor].
Defined.

(** A request the earlier handler routed is still routed: to the same
    route, unless a route declared before it, whose pattern holds an
    opening brace and is not the request path, now matches first. *)
Theorem v1_match_still_matches (h : MockHandler) (method path : string)
    (route : Route) :
  v1.findRoute h method path = Some route →
  findRoute h method path = Some route
  ∨ ∃ route',
      findRoute h method path = Some route'
      ∧ strings.Contains (Path route') "{" = true
      ∧ Path route' ≠ path.
Proof.
  unfold v1.findRoute, findRoute.
  induction (routes h) as [|r rest IH]; simpl; [discriminate|].
  destruct (String.eqb (Method r) method) eqn:Hm; simpl.
  - destruct (String.eqb (Path r) path) eqn:Hp.
    + intros [= <-]. left. apply String.eqb_eq in Hp. rewrite Hp.
      unfold pathMatches. now rewrite String.eqb_refl.
    + intros Hv. destruct (pathMatches (Path r) path) eqn:Hpm.
      * right. exists r. split; [reflexivity|].
        apply String.eqb_neq in Hp. split; [|exact Hp].
        destruct (strings.Contains (Path r) "{") eqn:Hc; [reflexivity|].
        rewrite (pathMatches_static _ _ Hc) in Hpm.
        apply String.eqb_eq in Hpm. congruence.
      * now apply IH.
  - exact IH.
Qed.

(** The theorem at a table where a parameterized route shadows a literal
    one: the earlier handler picks the literal route, the current one the
    parameterized route before it. *)
Lemma v1_match_still_matches_witness :
  findRoute (NewMockHandler [usersById; usersAdmin]) "GET" "/api/users/admin"
  = Some usersAdmin
  ∨ ∃ route',
      findRoute (NewMockHandler [usersById; usersAdmin]) "GET" "/api/users/admin"
      = Some route'
      ∧ strings.Contains (Path route') "{" = true
      ∧ Path route' ≠ "/api/users/admin".
Proof.
  exact (v1_match_still_matches (NewMockHandler [usersById; usersAdmin])
           "GET" "/api/users/admin" usersAdmin eq_refl).
Defined.

(** ** Bytes, indices and slices *)

Lemma prefix_char (c a : ascii) (s : string) :
  String.prefix (String c "") (String a s) = Ascii.eqb a c.
Proof.
  simpl. destruct (ascii_dec c a) as [->|Hne].
  - rewrite Ascii.eqb_refl. now destruct s.
  - symmetry. apply Ascii.eqb_neq. congruence.
Qed.

Lemma countByte_app (c : ascii) (a b : string) :
  countByte c (a +:+ b) = (countByte c a + countByte c b)%nat.
Proof. induction a as [|d a IH]; simpl; [reflexivity | rewrite IH; lia]. Qed.

Lemma countByte_le_length (c : ascii) (s : string) :
  (countByte c s ≤ String.length s)%nat.
Proof.
  induction s as [|d s IH]; simpl; [lia|]. destruct (Ascii.eqb d c); lia.
Qed.

Lemma countByte_substring (c : ascii) (s : string) (n m : nat) :
  (countByte c (String.substring n m s) ≤ countByte c s)%nat.
Proof.
  revert n m. induction s as [|d s IH]; intros n m.
  - destruct n, m; simpl; lia.
  - destruct n as [|n]; simpl.
    + destruct m as [|m]; simpl; [lia|]. specialize (IH 0%nat m). lia.
    + specialize (IH n m). lia.
Qed.

Lemma Contains_char (c : ascii) (s : string) :
  strings.Contains s (String c "") = negb (countByte c s =? 0)%nat.
Proof.
  induction s as [|a s IH]; [reflexivity|].
  cbn [strings.Contains countByte]. rewrite prefix_char, IH.
  now destruct (Ascii.eqb a c).
Qed.

Lemma Index_cons (c a : ascii) (s : string) :
  strings.Index (String a s) (String c "") =
    if Ascii.eqb a c then 0
    else if strings.Index s (String c "") <? 0 then -1
         else strings.Index s (String c "") + 1.
Proof.
  cbn [strings.Index]. rewrite prefix_char. reflexivity.
Qed.

Lemma Index_char_range (c : ascii) (s : string) :
  -1 ≤ strings.Index s (String c "").
Proof.
  induction s as [|a s IH]; [cbn; lia|].
  rewrite Index_cons. destruct (Ascii.eqb a c); [lia|].
  destruct (Z.ltb_spec (strings.Index s (String c "")) 0); lia.
Qed.

Lemma Index_char_found (c : ascii) (s : string) :
  0 ≤ strings.Index s (String c "") ↔ countByte c s ≠ 0%nat.
Proof.
  induction s as [|a s IH]; [cbn; lia|].
  rewrite Index_cons. cbn [countByte].
  destruct (Ascii.eqb a c); [lia|].
  destruct (Z.ltb_spec (strings.Index s (String c "")) 0); lia.
Qed.

Lemma sliceTo_zero (s : string) : sliceTo s 0 = "".
Proof. unfold sliceTo. now destruct s. Qed.

Lemma sliceTo_cons (a : ascii) (s : string) (i : Z) :
  0 ≤ i → sliceTo (String a s) (i + 1) = String a (sliceTo s i).
Proof.
  intros Hi. unfold sliceTo.
  replace (Z.to_nat (i + 1)) with (S (Z.to_nat i)) by lia. reflexivity.
Qed.

Lemma sliceFrom_cons (a : ascii) (s : string) (i : Z) :
  0 ≤ i → sliceFrom (String a s) (i + 1) = sliceFrom s i.
Proof.
  intros Hi. unfold sliceFrom.
  replace (Z.to_nat (i + 1)) with (S (Z.to_nat i)) by lia. reflexivity.
Qed.

(** One turn of the second loop: replacing the bytes from the first
    opening byte [o] to the first closing byte [cl] after it by a text
    without [o] lowers the number of [o]. *)
Lemma replace_span_count (o cl : ascii) (v s : string) :
  o ≠ cl → countByte o v = 0%nat →
  0 ≤ strings.Index s (String o "") < strings.Index s (String cl "") →
  (countByte o
     (sliceTo s (strings.Index s (String o "")) +:+ v
      +:+ sliceFrom s (strings.Index s (String cl "") + 1))
   < countByte o s)%nat.
Proof.
  intros Hne Hv. induction s as [|a s IH]; [cbn; lia|].
  rewrite !Index_cons. cbn [countByte].
  destruct (Ascii.eqb a o) eqn:Hao.
  - apply Ascii.eqb_eq in Hao. subst a.
    assert (Hcl : Ascii.eqb o cl = false) by now apply Ascii.eqb_neq.
    rewrite Hcl.
    destruct (Z.ltb_spec (strings.Index s (String cl "")) 0); [lia|].
    intros _. rewrite sliceTo_zero, sliceFrom_cons by lia.
    rewrite !countByte_app, Hv. cbn [countByte].
    unfold sliceFrom.
    pose proof (countByte_substring o s
                  (Z.to_nat (strings.Index s (String cl "") + 1))
                  (String.length s
                   - Z.to_nat (strings.Index s (String cl "") + 1))).
    lia.
  - destruct (Ascii.eqb a cl); [lia|].
    destruct (Z.ltb_spec (strings.Index s (String o "")) 0); [lia|].
    destruct (Z.ltb_spec (strings.Index s (String cl "")) 0); [lia|].
    intros Hlt.
    rewrite sliceTo_cons, sliceFrom_cons by lia.
    assert (Hs : 0 ≤ strings.Index s (String o "")
                 < strings.Index s (String cl "")) by lia.
    specialize (IH Hs). rewrite !countByte_app in IH |- *.
    cbn [countByte]. rewrite Hao. lia.
Qed.

(** ** The documentation generator: example paths *)

Lemma replaceRemaining_S (fuel : nat) (s : string) :
  curls.replaceRemaining (S fuel) s =
    if strings.Contains s "{" then
      if strings.Index s "{" <? strings.Index s "}"
      then curls.replaceRemaining fuel
             (sliceTo s (strings.Index s "{") +:+ "example-value"
              +:+ sliceFrom s (strings.Index s "}" + 1))
      else Some s
    else Some s.
Proof. reflexivity. Qed.

Lemma replaceRemaining_enough (fuel : nat) (s : string) :
  (countByte "{" s < fuel)%nat →
  ∃ r, curls.replaceRemaining fuel s = Some r
       ∧ (strings.Contains r "{" = false
          ∨ strings.Index r "}" ≤ strings.Index r "{").
Proof.
  revert s. induction fuel as [|fuel IH]; intros s Hlt; [lia|].
  rewrite replaceRemaining_S.
  destruct (strings.Contains s "{") eqn:Hc; [|now exists s; split; [|left]].
  destruct (Z.ltb_spec (strings.Index s "{") (strings.Index s "}")) as [Hse|Hse].
  - apply IH.
    assert (Hfound : 0 ≤ strings.Index s "{").
    { apply Index_char_found. rewrite Contains_char in Hc.
      destruct (Nat.eqb_spec (countByte "{" s) 0); [discriminate | assumption]. }
    pose proof (replace_span_count "{" "}" "example-value" s) as Hstep.
    assert (Hne : "{"%char ≠ "}"%char) by discriminate.
    specialize (Hstep Hne eq_refl (conj Hfound Hse)). lia.
  - exists s. split; [reflexivity | now right].
Qed.

Lemma prefix_open_false (o a : ascii) (k s : string) :
  a ≠ o → String.prefix (String o k) (String a s) = false.
Proof. intros Hne. simpl. destruct (ascii_dec o a); congruence. Qed.

Lemma ReplaceAll_no_open (o : ascii) (k new s : string) :
  countByte o s = 0%nat → strings.ReplaceAll s (String o k) new = s.
Proof.
  unfold strings.ReplaceAll. induction s as [|a s IH]; intros Hs; [reflexivity|].
  cbn [countByte] in Hs. destruct (Ascii.eqb a o) eqn:Hao; [lia|].
  apply Ascii.eqb_neq in Hao.
  cbn [strings.replaceFrom]. rewrite (prefix_open_false _ _ _ _ Hao).
  now rewrite IH by lia.
Qed.

Lemma replacements_list :
  map_to_list curls.replacements
  = [("{orderId}", "order-123"); ("{userId}", "456");
     ("{itemId}", "item-456"); ("{id}", "123"); ("{productId}", "789")].
Proof. vm_compute. reflexivity. Qed.

Lemma replacements_keys_open rangeOrder :
  rangeOK rangeOrder →
  Forall (λ kv : string * string, ∃ k, kv.1 = String "{" k)
    (rangeOrder curls.replacements).
Proof.
  intros Hok. rewrite (Hok curls.replacements), replacements_list.
  repeat (constructor; [eexists; reflexivity|]). constructor.
Qed.

Lemma replaceKnown_no_open rangeOrder (path : string) :
  rangeOK rangeOrder → countByte "{" path = 0%nat →
  curls.replaceKnown rangeOrder path = path.
Proof.
  intros Hok Hp. unfold curls.replaceKnown.
  pose proof (replacements_keys_open rangeOrder Hok) as Hk.
  induction Hk as [|kv l (k & Hkv) _ IH]; [reflexivity|].
  simpl. rewrite Hkv, (ReplaceAll_no_open _ _ _ _ Hp). exact IH.
Qed.

(** [convertPathToExample] terminates on every path, for every order of
    its first loop; in what it returns either no opening brace is left, or
    the first closing brace is missing or stands before the first opening
    brace (the case in which the second loop gives up). *)
Theorem convertPathToExample_returns rangeOrder (path : string) :
  ∃ r, curls.convertPathToExample rangeOrder path = Some r
       ∧ (strings.Contains r "{" = false
          ∨ strings.Index r "}" ≤ strings.Index r "{").
Proof.
  unfold curls.convertPathToExample. apply replaceRemaining_enough.
  pose proof (countByte_le_length "{" (curls.replaceKnown rangeOrder path)).
  lia.
Qed.

(** A path without an opening brace is its own example: neither loop of
    [convertPathToExample] changes it. *)
Theorem convertPathToExample_static rangeOrder (path : string) :
  rangeOK rangeOrder →
  strings.Contains path "{" = false →
  curls.convertPathToExample rangeOrder path = Some path.
Proof.
  intros Hok Hc.
  assert (Hp : countByte "{" path = 0%nat).
  { rewrite Contains_char in Hc.
    destruct (Nat.eqb_spec (countByte "{" path) 0); [assumption | discriminate]. }
  unfold curls.convertPathToExample.
  rewrite (replaceKnown_no_open _ _ Hok Hp), replaceRemaining_S.
  now rewrite Hc.
Qed.

(** The theorem at a literal path. *)
Lemma convertPathToExample_static_witness :
  curls.convertPathToExample reversed "/api/products" = Some "/api/products".
Proof.
  exact (convertPathToExample_static reversed "/api/products"
           rangeOK_reversed eq_refl).
Defined.

(** ** One turn of the second loop on a parameter *)

Lemma append_cons (c : ascii) (a b : string) :
  String c a +:+ b = String c (a +:+ b).
Proof. reflexivity. Qed.

Lemma append_assoc (a b c : string) : (a +:+ b) +:+ c = a +:+ (b +:+ c).
Proof.
  induction a as [|d a IH]; [reflexivity|]. now rewrite !append_cons, IH.
Qed.

Lemma append_nil_r (a : string) : a +:+ "" = a.
Proof.
  induction a as [|d a IH]; [reflexivity|]. now rewrite append_cons, IH.
Qed.

Lemma Index_app_free (c : ascii) (pre s : string) :
  countByte c pre = 0%nat →
  strings.Index (pre +:+ s) (String c "") =
    if strings.Index s (String c "") <? 0 then -1
    else Z.of_nat (String.length pre) + strings.Index s (String c "").
Proof.
  intros Hpre. induction pre as [|a pre IH].
  - change ("" +:+ s) with s. change (String.length "") with 0%nat.
    pose proof (Index_char_range c s).
    destruct (Z.ltb_spec (strings.Index s (String c "")) 0); lia.
  - cbn [countByte] in Hpre. destruct (Ascii.eqb a c) eqn:Hac; [lia|].
    rewrite append_cons.
    change (String.length (String a pre)) with (S (String.length pre)).
    rewrite Index_cons, Hac, IH by lia.
    destruct (Z.ltb_spec (strings.Index s (String c "")) 0) as [Hn|Hn].
    + reflexivity.
    + destruct (Z.ltb_spec
                  (Z.of_nat (String.length pre) + strings.Index s (String c "")) 0);
        lia.
Qed.

Lemma sliceTo_app (pre s : string) :
  sliceTo (pre +:+ s) (Z.of_nat (String.length pre)) = pre.
Proof.
  unfold sliceTo. rewrite Nat2Z.id.
  induction pre as [|a pre IH]; simpl; [now destruct s | now rewrite IH].
Qed.

Lemma substring_all (s : string) : String.substring 0 (String.length s) s = s.
Proof. induction s as [|a s IH]; simpl; [reflexivity | now rewrite IH]. Qed.

Lemma sliceFrom_app (pre s : string) :
  sliceFrom (pre +:+ s) (Z.of_nat (String.length pre)) = s.
Proof.
  unfold sliceFrom. rewrite Nat2Z.id, length_append.
  replace (String.length pre + String.length s - String.length pre)%nat
    with (String.length s) by lia.
  induction pre as [|a pre IH]; simpl; [apply substring_all | exact IH].
Qed.

(** The leftmost parameter, after a text without braces, is replaced by
    [example-value] in one turn, whatever follows its closing brace. *)
Lemma replaceRemaining_param (fuel : nat) (pre name rest : string) :
  countByte "{" pre = 0%nat → countByte "}" pre = 0%nat →
  countByte "}" name = 0%nat →
  curls.replaceRemaining (S fuel)
    (pre +:+ String "{" (name +:+ String "}" rest))
  = curls.replaceRemaining fuel (pre +:+ "example-value" +:+ rest).
Proof.
  intros Hpo Hpc Hn.
  set (s := pre +:+ String "{" (name +:+ String "}" rest)).
  assert (Hstart : strings.Index s "{" = Z.of_nat (String.length pre)).
  { subst s. rewrite Index_app_free by assumption.
    rewrite Index_cons, Ascii.eqb_refl. change (0 <? 0) with false. cbv iota. lia. }
  assert (Hend : strings.Index s "}"
                 = Z.of_nat (String.length pre + 1 + String.length name)).
  { subst s. rewrite Index_app_free by assumption.
    rewrite Index_cons. change (Ascii.eqb "{" "}") with false. cbv iota.
    rewrite Index_app_free by assumption.
    rewrite Index_cons, Ascii.eqb_refl. change (0 <? 0) with false. cbv iota.
    destruct (Z.ltb_spec (Z.of_nat (String.length name) + 0) 0); [lia|].
    destruct (Z.ltb_spec (Z.of_nat (String.length name) + 0 + 1) 0); lia. }
  assert (Hc : strings.Contains s "{" = true).
  { rewrite Contains_char.
    destruct (Nat.eqb_spec (countByte "{" s) 0) as [E|E]; [|reflexivity].
    pose proof (proj1 (Index_char_found "{" s)) as Hf.
    rewrite Hstart in Hf. exfalso. apply Hf; [lia | exact E]. }
  rewrite replaceRemaining_S, Hc, Hstart, Hend.
  destruct (Z.ltb_spec (Z.of_nat (String.length pre))
              (Z.of_nat (String.length pre + 1 + String.length name)));
    [|lia].
  f_equal. f_equal.
  - subst s. apply sliceTo_app.
  - f_equal. subst s.
    replace (pre +:+ String "{" (name +:+ String "}" rest))
      with ((pre +:+ String "{" (name +:+ "}")) +:+ rest).
    + replace (Z.of_nat (String.length pre + 1 + String.length name) + 1)
        with (Z.of_nat (String.length (pre +:+ String "{" (name +:+ "}")))).
      * apply sliceFrom_app.
      * rewrite length_append. cbn [String.length].
        rewrite length_append. cbn [String.length]. lia.
    + now rewrite append_assoc, append_cons, append_assoc.
Qed.

(** ** The first loop on a pattern made of whole segments *)

Lemma append_nil_l (a : string) : "" +:+ a = a.
Proof. reflexivity. Qed.

Lemma replaceFrom_cons (old new : string) (c : ascii) (s : string) :
  strings.replaceFrom old new 0 (String c s) =
    if String.prefix old (String c s)
    then new +:+ strings.replaceFrom old new (String.length old - 1) s
    else String c (strings.replaceFrom old new 0 s).
Proof. reflexivity. Qed.

Lemma replaceFrom_app_free (o : ascii) (k new s rest : string) :
  countByte o s = 0%nat →
  strings.replaceFrom (String o k) new 0 (s +:+ rest)
  = s +:+ strings.replaceFrom (String o k) new 0 rest.
Proof.
  induction s as [|a s IH]; intros Hs; [reflexivity|].
  cbn [countByte] in Hs. destruct (Ascii.eqb a o) eqn:Hao; [lia|].
  apply Ascii.eqb_neq in Hao.
  rewrite !append_cons, replaceFrom_cons, (prefix_open_false _ _ _ _ Hao).
  now rewrite IH by lia.
Qed.

Lemma replaceFrom_skip (old new a rest : string) :
  strings.replaceFrom old new (String.length a) (a +:+ rest)
  = strings.replaceFrom old new 0 rest.
Proof.
  induction a as [|c a IH]; [now destruct rest|].
  rewrite append_cons. exact IH.
Qed.

Lemma prefix_same (c : ascii) (a b : string) :
  String.prefix (String c a) (String c b) = String.prefix a b.
Proof. simpl. destruct (ascii_dec c c); congruence. Qed.

Lemma prefix_key (cl : ascii) (k n rest : string) :
  countByte cl k = 0%nat → countByte cl n = 0%nat →
  String.prefix (k +:+ String cl "") (n +:+ String cl rest) = String.eqb k n.
Proof.
  revert n. induction k as [|b k IH]; intros n Hk Hn.
  - destruct n as [|a n]; [now rewrite !append_nil_l, prefix_char, Ascii.eqb_refl|].
    cbn [countByte] in Hn. destruct (Ascii.eqb a cl) eqn:Ha; [lia|].
    now rewrite append_nil_l, append_cons, prefix_char, Ha.
  - cbn [countByte] in Hk. destruct (Ascii.eqb b cl) eqn:Hb; [lia|].
    destruct n as [|a n].
    + rewrite append_nil_l, append_cons.
      apply Ascii.eqb_neq in Hb.
      rewrite prefix_open_false by congruence. reflexivity.
    + cbn [countByte] in Hn. destruct (Ascii.eqb a cl) eqn:Ha; [lia|].
      rewrite !append_cons. cbn [String.eqb].
      destruct (Ascii.eqb_spec b a) as [->|Hne].
      * rewrite prefix_same. apply IH; lia.
      * now rewrite prefix_open_false by congruence.
Qed.

Lemma ReplaceAll_render (k v : string) (segs : list segment) :
  Forall segmentOK segs → countByte "}" k = 0%nat →
  strings.ReplaceAll (render segs) (String "{" (k +:+ "}")) v
  = render (map (substSegment k v) segs).
Proof.
  intros Hok Hk. unfold strings.ReplaceAll.
  induction Hok as [|seg rest Hseg _ IH]; [reflexivity|].
  cbn [render map]. rewrite replaceFrom_cons.
  rewrite prefix_open_false by discriminate. f_equal.
  destruct seg as [s|n]; cbn [text substSegment segmentOK] in *.
  - destruct Hseg as (_ & _ & Hs & _).
    now rewrite (replaceFrom_app_free _ _ _ _ _ Hs), IH.
  - destruct Hseg as (_ & Ho & Hc).
    rewrite append_cons, append_assoc, append_cons, append_nil_l.
    rewrite replaceFrom_cons, prefix_same, (prefix_key _ _ _ _ Hk Hc).
    destruct (String.eqb_spec k n) as [->|Hne]; cbn [text].
    + f_equal. rewrite <- IH.
      replace (String.length (String "{" (n +:+ "}")) - 1)%nat
        with (String.length (n +:+ "}")) by (cbn [String.length]; lia).
      replace (n +:+ String "}" (render rest)) with ((n +:+ "}") +:+ render rest)
        by now rewrite append_assoc.
      apply replaceFrom_skip.
    + rewrite append_cons. f_equal. rewrite <- IH.
      replace (n +:+ String "}" (render rest)) with ((n +:+ "}") +:+ render rest)
        by now rewrite append_assoc.
      apply replaceFrom_app_free. rewrite countByte_app. cbn. lia.
Qed.

Lemma substSegment_OK (k v : string) (segs : list segment) :
  v ≠ "" → plainText v → Forall segmentOK segs →
  Forall segmentOK (map (substSegment k v) segs).
Proof.
  intros Hv Hp Hok. induction Hok as [|seg rest Hseg _ IH]; constructor;
    [|exact IH].
  destruct seg as [s|n]; cbn [substSegment]; [exact Hseg|].
  destruct (String.eqb k n); [now split | exact Hseg].
Qed.

Lemma substSegment_filled (k v : string) (segs : list segment) :
  v ≠ "" → plainText v →
  Forall2 filledFrom segs (map (substSegment k v) segs).
Proof.
  intros Hv Hp. induction segs as [|seg rest IH]; constructor; [|exact IH].
  destruct seg as [s|n]; cbn [substSegment filledFrom]; [reflexivity|].
  destruct (String.eqb k n); cbn [filledFrom]; [now split | reflexivity].
Qed.

Lemma filledFrom_trans (a b c : segment) :
  filledFrom a b → filledFrom b c → filledFrom a c.
Proof.
  destruct a, b, c; cbn [filledFrom]; try tauto; try congruence.
Qed.

Lemma replacements_entries rangeOrder :
  rangeOK rangeOrder → Forall entryOK (rangeOrder curls.replacements).
Proof.
  intros Hok. rewrite (Hok curls.replacements), replacements_list.
  assert (H : ∀ k v, countByte "}" k = 0%nat → v ≠ "" → plainText v →
                     entryOK (String "{" (k +:+ "}"), v)).
  { intros k v Hk Hv Hp. now exists k. }
  repeat constructor.
  - apply (H "orderId" "order-123"); [reflexivity | discriminate | now repeat split].
  - apply (H "userId" "456"); [reflexivity | discriminate | now repeat split].
  - apply (H "itemId" "item-456"); [reflexivity | discriminate | now repeat split].
  - apply (H "id" "123"); [reflexivity | discriminate | now repeat split].
  - apply (H "productId" "789"); [reflexivity | discriminate | now repeat split].
Qed.

Lemma replaceKnown_render rangeOrder (segs : list segment) :
  rangeOK rangeOrder → Forall segmentOK segs →
  ∃ segs1,
    curls.replaceKnown rangeOrder (render segs) = render segs1
    ∧ Forall segmentOK segs1
    ∧ Forall2 filledFrom segs segs1.
Proof.
  intros Hok Hsegs. unfold curls.replaceKnown.
  pose proof (replacements_entries rangeOrder Hok) as He.
  revert segs Hsegs.
  induction He as [|[K v] l (k & HK & Hk & Hv & Hp) _ IH]; intros segs Hsegs.
  - exists segs. repeat split; [exact Hsegs|].
    clear Hsegs. induction segs as [|[s|n] rest IHs]; constructor;
      try exact IHs; reflexivity.
  - cbn [fold_left fst snd] in *. subst K.
    rewrite (ReplaceAll_render k v segs Hsegs Hk).
    destruct (IH (map (substSegment k v) segs)
                (substSegment_OK k v segs Hv Hp Hsegs))
      as (segs1 & Heq & Hok1 & Hfill).
    exists segs1. repeat split; [exact Heq | exact Hok1 |].
    pose proof (substSegment_filled k v segs Hv Hp) as Hfirst.
    clear -Hfirst Hfill. revert segs1 Hfill.
    induction Hfirst as [|a b la lb Hab _ IHf]; intros segs1 Hfill.
    + inversion Hfill. constructor.
    + inversion Hfill as [|? c ? lc Hbc Hrest]; subst.
      constructor; [exact (filledFrom_trans _ _ _ Hab Hbc) | now apply IHf].
Qed.

(** ** The second loop on a pattern made of whole segments *)

Lemma replaceRemaining_done (fuel : nat) (s : string) :
  strings.Contains s "{" = false → curls.replaceRemaining fuel s = Some s.
Proof.
  intros Hc. destruct fuel; [|rewrite replaceRemaining_S]; cbn; now rewrite Hc.
Qed.

Lemma text_example_OK (seg : segment) :
  segmentOK seg → segmentOK (toExample seg).
Proof.
  destruct seg; cbn [toExample segmentOK]; [tauto|].
  intros _. split; [discriminate | now repeat split].
Qed.

Lemma render_count_lit (s : string) (rest : list segment) :
  plainText s →
  countByte "{" (render (Lit s :: rest)) = countByte "{" (render rest).
Proof.
  intros (_ & Ho & _). cbn [render text countByte].
  change (Ascii.eqb "/" "{") with false. cbv iota.
  rewrite countByte_app, Ho. reflexivity.
Qed.

Lemma render_count_param (n : string) (rest : list segment) :
  plainText n →
  countByte "{" (render (Param n :: rest)) = S (countByte "{" (render rest)).
Proof.
  intros (_ & Ho & _). cbn [render text]. rewrite append_cons.
  cbn [countByte]. change (Ascii.eqb "/" "{") with false.
  rewrite Ascii.eqb_refl. cbv iota.
  rewrite !countByte_app, Ho. cbn. lia.
Qed.

Lemma replaceRemaining_render (segs : list segment) (pre : string) (fuel : nat) :
  countByte "{" pre = 0%nat → countByte "}" pre = 0%nat →
  Forall segmentOK segs →
  (countByte "{" (render segs) < fuel)%nat →
  curls.replaceRemaining fuel (pre +:+ render segs)
  = Some (pre +:+ render (map toExample segs)).
Proof.
  intros Hpo Hpc Hok. revert pre fuel Hpo Hpc.
  induction Hok as [|seg rest Hseg _ IH]; intros pre fuel Hpo Hpc Hfuel.
  - cbn [render map]. rewrite append_nil_r. apply replaceRemaining_done.
    rewrite Contains_char, Hpo. reflexivity.
  - destruct seg as [s|n]; cbn [segmentOK] in Hseg.
    + destruct Hseg as [_ Hs]. rewrite (render_count_lit _ _ Hs) in Hfuel.
      destruct Hs as (_ & Ho & Hc).
      cbn [render map toExample text].
      replace (pre +:+ String "/" (s +:+ render rest))
        with ((pre +:+ String "/" s) +:+ render rest)
        by now rewrite append_assoc, append_cons.
      rewrite IH.
      * now rewrite append_assoc, append_cons.
      * rewrite countByte_app. cbn [countByte].
        change (Ascii.eqb "/" "{") with false. cbv iota. lia.
      * rewrite countByte_app. cbn [countByte].
        change (Ascii.eqb "/" "}") with false. cbv iota. lia.
      * exact Hfuel.
    + rewrite (render_count_param _ _ Hseg) in Hfuel.
      destruct Hseg as (_ & Ho & Hc).
      destruct fuel as [|fuel]; [lia|].
      cbn [render map toExample text].
      replace (pre +:+ String "/" (String "{" (n +:+ "}") +:+ render rest))
        with ((pre +:+ "/") +:+ String "{" (n +:+ String "}" (render rest)))
        by now rewrite !append_assoc, !append_cons, append_assoc.
      rewrite replaceRemaining_param.
      * replace ((pre +:+ "/") +:+ "example-value" +:+ render rest)
          with (((pre +:+ "/") +:+ "example-value") +:+ render rest)
          by now rewrite !append_assoc.
        rewrite IH.
        -- now rewrite !append_assoc.
        -- rewrite !countByte_app. cbn. lia.
        -- rewrite !countByte_app. cbn. lia.
        -- lia.
      * rewrite countByte_app. cbn. lia.
      * rewrite countByte_app. cbn. lia.
      * exact Hc.
Qed.

(** ** The segments of a pattern made of whole segments *)

Lemma inCutset_slash (a : ascii) :
  strings.inCutset a "/" = Ascii.eqb a "/".
Proof. cbn. apply orb_false_r. Qed.

Lemma text_nonempty (seg : segment) : segmentOK seg → text seg ≠ "".
Proof. destruct seg; cbn [segmentOK text]; [tauto | discriminate]. Qed.

Lemma text_no_slash (seg : segment) :
  segmentOK seg → countByte "/" (text seg) = 0%nat.
Proof.
  destruct seg as [s|n]; cbn [segmentOK text].
  - now intros (_ & H & _).
  - intros (H & _). cbn [countByte]. rewrite countByte_app, H. reflexivity.
Qed.

Lemma TrimRight_free (t : string) :
  countByte "/" t = 0%nat → strings.TrimRight t "/" = t.
Proof.
  induction t as [|a t IH]; intros Ht; [reflexivity|].
  cbn [countByte] in Ht. destruct (Ascii.eqb a "/") eqn:Ha; [lia|].
  cbn [strings.TrimRight]. rewrite IH by lia.
  destruct t; [|reflexivity]. now rewrite inCutset_slash, Ha.
Qed.

Lemma TrimRight_app (x t : string) :
  strings.TrimRight t "/" ≠ "" →
  strings.TrimRight (x +:+ t) "/" = x +:+ strings.TrimRight t "/".
Proof.
  intros Ht. induction x as [|a x IH]; [reflexivity|].
  rewrite !append_cons. cbn [strings.TrimRight]. rewrite IH.
  destruct (strings.TrimRight t "/") as [|b r]; [contradiction|].
  now destruct x.
Qed.

Lemma render_nonempty (segs : list segment) : segs ≠ [] → render segs ≠ "".
Proof. now destruct segs. Qed.

Lemma TrimRight_render (segs : list segment) :
  Forall segmentOK segs → strings.TrimRight (render segs) "/" = render segs.
Proof.
  induction 1 as [|seg rest Hseg Hrest IH]; [reflexivity|].
  cbn [render].
  replace (String "/" (text seg +:+ render rest))
    with (String "/" (text seg) +:+ render rest) by apply append_cons.
  destruct rest as [|seg' rest].
  - cbn [render]. rewrite append_nil_r.
    replace (String "/" (text seg)) with ("/" +:+ text seg) by reflexivity.
    pose proof (TrimRight_free _ (text_no_slash _ Hseg)) as Hfree.
    rewrite TrimRight_app; rewrite Hfree; [reflexivity|].
    now apply text_nonempty.
  - rewrite TrimRight_app; rewrite IH; [reflexivity|].
    now apply render_nonempty.
Qed.

Lemma TrimLeft_text (seg : segment) (rest : string) :
  segmentOK seg →
  strings.TrimLeft (text seg +:+ rest) "/" = text seg +:+ rest.
Proof.
  intros Hseg. pose proof (text_nonempty _ Hseg) as Hne.
  pose proof (text_no_slash _ Hseg) as Hfree.
  destruct (text seg) as [|a t]; [contradiction|].
  cbn [countByte] in Hfree. destruct (Ascii.eqb a "/") eqn:Ha; [lia|].
  rewrite append_cons. cbn [strings.TrimLeft]. now rewrite inCutset_slash, Ha.
Qed.

Lemma Trim_render (seg : segment) (rest : list segment) :
  Forall segmentOK (seg :: rest) →
  strings.Trim (render (seg :: rest)) "/" = text seg +:+ render rest.
Proof.
  intros Hok. unfold strings.Trim. rewrite (TrimRight_render _ Hok).
  cbn [render strings.TrimLeft]. rewrite inCutset_slash.
  change (Ascii.eqb "/" "/") with true. cbv iota.
  apply TrimLeft_text. now inversion Hok.
Qed.

Lemma splitFrom_cons (cur : string) (a : ascii) (s : string) :
  strings.splitFrom "/" 0 cur (String a s) =
    if Ascii.eqb a "/" then cur :: strings.splitFrom "/" 0 "" s
    else strings.splitFrom "/" 0 (cur +:+ String a "") s.
Proof.
  cbn [strings.splitFrom]. rewrite prefix_char. reflexivity.
Qed.

Lemma splitFrom_free (cur t rest : string) :
  countByte "/" t = 0%nat →
  strings.splitFrom "/" 0 cur (t +:+ rest)
  = strings.splitFrom "/" 0 (cur +:+ t) rest.
Proof.
  revert cur. induction t as [|a t IH]; intros cur Ht.
  - now rewrite append_nil_l, append_nil_r.
  - cbn [countByte] in Ht. destruct (Ascii.eqb a "/") eqn:Ha; [lia|].
    rewrite append_cons, splitFrom_cons, Ha, IH by lia.
    now rewrite append_assoc.
Qed.

Lemma splitFrom_render (cur : string) (segs : list segment) :
  Forall segmentOK segs →
  strings.splitFrom "/" 0 cur (render segs) = cur :: map text segs.
Proof.
  intros Hok. revert cur.
  induction Hok as [|seg rest Hseg _ IH]; intros cur; [reflexivity|].
  cbn [render map]. rewrite splitFrom_cons.
  change (Ascii.eqb "/" "/") with true. cbv iota. f_equal.
  rewrite (splitFrom_free _ _ _ (text_no_slash _ Hseg)), append_nil_l.
  apply IH.
Qed.

Lemma segments_render (segs : list segment) :
  segs ≠ [] → Forall segmentOK segs →
  segments (render segs) = map text segs.
Proof.
  intros Hne Hok. destruct segs as [|seg rest]; [contradiction|].
  unfold segments, strings.Split. rewrite (Trim_render _ _ Hok).
  inversion Hok as [|? ? Hseg Hrest]; subst.
  rewrite (splitFrom_free _ _ _ (text_no_slash _ Hseg)), append_nil_l.
  now apply splitFrom_render.
Qed.

Lemma substring_last (n : string) (c : ascii) :
  String.substring (String.length n) 1 (n +:+ String c "") = String c "".
Proof. induction n as [|a n IH]; [reflexivity | exact IH]. Qed.

Lemma isParam_text (n : string) : isParam (text (Param n)) = true.
Proof.
  unfold isParam, strings.HasPrefix, strings.HasSuffix. cbn [text].
  rewrite prefix_char, Ascii.eqb_refl.
  change (String.length "}") with 1%nat.
  change (String.length (String "{" (n +:+ "}")))
    with (S (String.length (n +:+ "}"))).
  rewrite length_append. change (String.length "}") with 1%nat.
  replace (S (String.length n + 1) - 1)%nat with (S (String.length n)) by lia.
  cbn [String.substring]. rewrite substring_last. reflexivity.
Qed.

(** ** The example path of a pattern matches the pattern *)

Lemma filledFrom_example (a b : segment) :
  filledFrom a b → filledFrom a (toExample b).
Proof.
  destruct a, b; cbn [filledFrom toExample]; try tauto.
  intros _. split; [discriminate | now repeat split].
Qed.

Lemma toExample_lit (segs : list segment) :
  Forall (λ b, ∃ s, b = Lit s) (map toExample segs).
Proof.
  induction segs as [|[s|n] rest IH]; constructor; try exact IH;
    cbn [toExample]; eexists; reflexivity.
Qed.

Lemma accepts_of_filled (segs segs2 : list segment) :
  Forall2 filledFrom segs segs2 →
  Forall (λ b, ∃ s, b = Lit s) segs2 →
  Forall2 segmentAccepts (map text segs) (map text segs2).
Proof.
  induction 1 as [|a b la lb Hab _ IH]; intros Hl; [constructor|].
  inversion Hl as [|? ? (s & ->) Hrest]; subst.
  cbn [map]. constructor; [|now apply IH].
  destruct a as [s'|n]; cbn [filledFrom] in Hab.
  - right. now subst.
  - left. apply isParam_text.
Qed.

Lemma same_or_param (segs segs2 : list segment) :
  Forall2 filledFrom segs segs2 →
  Forall (λ b, ∃ s, b = Lit s) segs2 →
  Forall segmentOK segs →
  render segs = render segs2 ∨ strings.Contains (render segs) "{" = true.
Proof.
  induction 1 as [|a b la lb Hab _ IH]; intros Hl Hok; [now left|].
  inversion Hl as [|? ? (s & ->) Hrest]; subst.
  inversion Hok as [|? ? Ha Hla]; subst.
  destruct a as [s'|n]; cbn [filledFrom segmentOK] in Hab, Ha.
  - subst s'. destruct (IH Hrest Hla) as [Heq | Hc].
    + left. cbn [render]. now rewrite Heq.
    + right. rewrite Contains_char in *.
      now rewrite (render_count_lit _ _ (proj2 Ha)).
  - right. rewrite Contains_char, (render_count_param _ _ Ha). reflexivity.
Qed.

Lemma lits_no_open (segs : list segment) :
  Forall segmentOK segs → Forall (λ b, ∃ s, b = Lit s) segs →
  countByte "{" (render segs) = 0%nat.
Proof.
  induction 1 as [|seg rest Hseg _ IH]; intros Hl; [reflexivity|].
  inversion Hl as [|? ? (s & ->) Hrest]; subst.
  rewrite (render_count_lit _ _ (proj2 Hseg)). now apply IH.
Qed.

(** For a pattern made of whole segments, each a non-empty literal without
    slash and braces or a parameter [{name}] whose name has none of them,
    [convertPathToExample] returns a path without an opening brace that
    the pattern itself matches under [pathMatches], for every order of the
    loop over the known parameter names: the example of the generated
    documentation is a path of the documented route. *)
Theorem example_path_matches_pattern rangeOrder (segs : list segment) :
  rangeOK rangeOrder → Forall segmentOK segs →
  ∃ r, curls.convertPathToExample rangeOrder (render segs) = Some r
       ∧ strings.Contains r "{" = false
       ∧ pathMatches (render segs) r = true.
Proof.
  intros Hrange Hok.
  destruct (replaceKnown_render rangeOrder segs Hrange Hok)
    as (segs1 & Hknown & Hok1 & Hfill1).
  set (segs2 := map toExample segs1).
  assert (Hok2 : Forall segmentOK segs2).
  { subst segs2. clear -Hok1. induction Hok1; constructor;
      [now apply text_example_OK | assumption]. }
  assert (Hl2 : Forall (λ b, ∃ s, b = Lit s) segs2) by apply toExample_lit.
  assert (Hfill2 : Forall2 filledFrom segs segs2).
  { subst segs2. clear -Hfill1. induction Hfill1; constructor;
      [now apply filledFrom_example | assumption]. }
  exists (render segs2). split; [|split].
  - unfold curls.convertPathToExample. rewrite Hknown.
    pose proof (replaceRemaining_render segs1 ""
                  (S (String.length (render segs1))) eq_refl eq_refl Hok1)
      as Hloop.
    rewrite !append_nil_l in Hloop. apply Hloop.
    pose proof (countByte_le_length "{" (render segs1)). lia.
  - rewrite Contains_char, (lits_no_open _ Hok2 Hl2). reflexivity.
  - rewrite pathMatches_unfold.
    destruct (same_or_param _ _ Hfill2 Hl2 Hok) as [Heq | Hc].
    + rewrite <- Heq, String.eqb_refl. reflexivity.
    + rewrite Hc. apply orb_true_iff. right. cbn [andb].
      assert (Hne : segs ≠ []).
      { intros ->. discriminate Hc. }
      assert (Hne2 : segs2 ≠ []).
      { intros H2. rewrite H2 in Hfill2. inversion Hfill2. congruence. }
      rewrite (segments_render _ Hne Hok), (segments_render _ Hne2 Hok2).
      pose proof (accepts_of_filled _ _ Hfill2 Hl2) as Hacc.
      pose proof (Forall2_length _ _ _ Hacc) as Hlen.
      apply andb_true_iff. split; [now apply Nat.eqb_eq|].
      now apply segmentsMatch_Forall2.
Qed.

(** The theorem at the two-parameter pattern of the sample configuration. *)
Lemma example_path_matches_pattern_witness :
  ∃ r, curls.convertPathToExample reversed
         (render [Lit "api"; Lit "orders"; Param "orderId";
                  Lit "items"; Param "itemId"]) = Some r
       ∧ strings.Contains r "{" = false
       ∧ pathMatches
           (render [Lit "api"; Lit "orders"; Param "orderId";
                    Lit "items"; Param "itemId"]) r = true.
Proof.
  apply (example_path_matches_pattern reversed
           [Lit "api"; Lit "orders"; Param "orderId";
            Lit "items"; Param "itemId"] rangeOK_reversed).
  repeat (constructor;
          [first [ split; [discriminate | now repeat split]
                 | now repeat split ]|]).
  constructor.
Defined.

Example render_sample :
  render [Lit "api"; Lit "orders"; Param "orderId"; Lit "items"; Param "itemId"]
  = "/api/orders/{orderId}/items/{itemId}".
Proof. reflexivity. Qed.

Example convert_sample :
  curls.convertPathToExample reversed "/api/users/{userId}/posts/{postId}"
  = Some "/api/users/456/posts/example-value".
Proof. reflexivity. Qed.

(** Outside that shape the example need not match: a brace inside a
    segment makes the segment a literal for [pathMatches]. *)
Example convert_partial_segment :
  curls.convertPathToExample reversed "/files/v{id}" = Some "/files/v123"
  ∧ pathMatches "/files/v{id}" "/files/v123" = false.
Proof. split; reflexivity. Qed.

(** ** Slashes around the request path *)

Lemma TrimRight_idem (s cutset : string) :
  strings.TrimRight (strings.TrimRight s cutset) cutset
  = strings.TrimRight s cutset.
Proof.
  induction s as [|a s IH]; [reflexivity|].
  cbn [strings.TrimRight].
  destruct (strings.TrimRight s cutset) as [|b r] eqn:Hr.
  - destruct (strings.inCutset a cutset) eqn:Ha; [reflexivity|].
    cbn [strings.TrimRight]. now rewrite Ha.
  - cbn [strings.TrimRight] in IH |- *. now rewrite IH.
Qed.

Lemma TrimRight_fixed_tail (a : ascii) (s cutset : string) :
  strings.inCutset a cutset = true →
  strings.TrimRight (String a s) cutset = String a s →
  strings.TrimRight s cutset = s.
Proof.
  intros Ha. cbn [strings.TrimRight].
  destruct (strings.TrimRight s cutset) as [|b r].
  - now rewrite Ha.
  - now intros [= ->].
Qed.

Lemma TrimRight_TrimLeft (s cutset : string) :
  strings.TrimRight s cutset = s →
  strings.TrimRight (strings.TrimLeft s cutset) cutset
  = strings.TrimLeft s cutset.
Proof.
  induction s as [|a s IH]; intros Hs; [reflexivity|].
  cbn [strings.TrimLeft].
  destruct (strings.inCutset a cutset) eqn:Ha; [|exact Hs].
  apply IH. exact (TrimRight_fixed_tail _ _ _ Ha Hs).
Qed.

Lemma TrimLeft_idem (s cutset : string) :
  strings.TrimLeft (strings.TrimLeft s cutset) cutset
  = strings.TrimLeft s cutset.
Proof.
  induction s as [|a s IH]; [reflexivity|].
  cbn [strings.TrimLeft].
  destruct (strings.inCutset a cutset) eqn:Ha; [exact IH|].
  cbn [strings.TrimLeft]. now rewrite Ha.
Qed.

Lemma Trim_idem (s cutset : string) :
  strings.Trim (strings.Trim s cutset) cutset = strings.Trim s cutset.
Proof.
  unfold strings.Trim.
  rewrite (TrimRight_TrimLeft _ _ (TrimRight_idem s cutset)).
  apply TrimLeft_idem.
Qed.

Lemma segments_Trim (s : string) : segments (strings.Trim s "/") = segments s.
Proof. unfold segments. now rewrite Trim_idem. Qed.

(** For a pattern with an opening brace the slashes around the request
    path do not count: the path matches exactly when the path stripped of
    all its leading and trailing slashes does. *)
Theorem outer_slashes_ignored (pattern path : string) :
  strings.Contains pattern "{" = true →
  pathMatches pattern (strings.Trim path "/") = pathMatches pattern path.
Proof.
  intros Hc. rewrite !pathMatches_unfold, Hc, segments_Trim. cbn [andb].
  destruct (String.eqb_spec pattern (strings.Trim path "/")) as [E1|E1];
    destruct (String.eqb_spec pattern path) as [E2|E2]; cbn [orb];
    try reflexivity.
  - subst pattern. rewrite segments_Trim, Nat.eqb_refl.
    symmetry. apply segmentsMatch_refl.
  - subst pattern. rewrite Nat.eqb_refl. apply segmentsMatch_refl.
Qed.

(** The theorem at a path with doubled outer slashes. *)
Lemma outer_slashes_ignored_witness :
  pathMatches "/api/products/{id}" (strings.Trim "//api/products/101//" "/")
  = pathMatches "/api/products/{id}" "//api/products/101//".
Proof.
  exact (outer_slashes_ignored "/api/products/{id}" "//api/products/101//"
           eq_refl).
Defined.

(** ** The status code *)

